(** * Monte Carlo simulation of blood usage: the sampler and the engine

    A shallow embedding of [app.montecarlo.py]: the interval helpers
    ([clean_interval_string], [parse_interval]), the band walk of
    [display_distribution_table], the sampler [get_simulation_value], the
    engine [run_monte_carlo_simulation], the period-count validation of the
    main block and the extremal periods of [perform_summary_analysis].

    Conventions of the embedding.
    - A Python [int] is a [Z].
    - A Python [str] is the list of its Unicode code points ([pystr]).
    - A Python [float] is carried as the rational number it denotes ([Q]):
      the cells of a distribution table are finite numbers, and the
      arithmetic on them ([round], [/], [*], [math.ceil]) is the exact one;
      the rounding and the overflow of binary64 are not modelled.
    - For a function under [st.cache_data] the body is modelled, that is a
      call that is not answered from the cache.
    - The dict of tables is a [gmap] from category labels to references, and
      the DataFrames live in a heap, so that effects on them can be stated.
    - Random draws, the progress bar and the messages of the page are
      threaded through a state monad over [World]. *)

From Stdlib Require Import ZArith QArith Qround Lia Ascii String DecimalString.
From Stdlib Require DecimalPos.
From stdpp Require Import gmap strings list fin_maps sorting.

Local Open Scope Z_scope.

(* ===================================================================== *)
(** ** Python strings *)
(* ===================================================================== *)

Module PyStr.

(** A [str] as the sequence of its code points. *)
Definition pystr := list N.

(** An ASCII literal as a [pystr]. *)
Definition lit (s : string) : pystr :=
  map N_of_ascii (list_ascii_of_string s).

Definition HYPHEN : N := 45.        (* '-'  U+002D *)
Definition SPACE : N := 32.         (* ' '  U+0020 *)
Definition COMMA : N := 44.         (* ','  U+002C *)
Definition PLUS : N := 43.          (* '+'  U+002B *)
Definition UNDERSCORE : N := 95.    (* '_'  U+005F *)
Definition A_CIRCUMFLEX : N := 226. (* U+00E2, the first character the
                                       source replaces *)
Definition EN_DASH : N := 8211.     (* U+2013 *)
Definition EM_DASH : N := 8212.     (* U+2014 *)

(** [s.replace(old, new)] for a pattern [old] of one character: every
    occurrence of the character is replaced. *)
Definition replace (old : N) (new : pystr) (s : pystr) : pystr :=
  flat_map (fun c => if N.eqb c old then new else [c]) s.

(** [s.split(sep)] for a separator of one character: the fields between
    the occurrences of [sep], in order; always at least one field. *)
Fixpoint split (sep : N) (s : pystr) : list pystr :=
  match s with
  | [] => [[]]
  | c :: s' =>
      if N.eqb c sep then [] :: split sep s'
      else match split sep s' with
           | field :: fields => (c :: field) :: fields
           | [] => [[c]]
           end
  end.

(** *** [int(s)]

    CPython first maps the string to ASCII: a character below 127 is kept,
    a Unicode space becomes a blank, a Unicode decimal digit becomes the
    ASCII digit of its value, and anything else makes the literal invalid.
    The ASCII text is then read as: blanks, an optional sign, decimal
    digits with single underscores between digits, blanks. *)

(** Zero digits of the decimal-digit blocks (each block is the ten
    consecutive digits 0..9), Unicode 14. *)
Definition decimal_zeros : list N :=
  [0x30; 0x660; 0x6f0; 0x7c0; 0x966; 0x9e6; 0xa66; 0xae6; 0xb66; 0xbe6;
   0xc66; 0xce6; 0xd66; 0xde6; 0xe50; 0xed0; 0xf20; 0x1040; 0x1090;
   0x17e0; 0x1810; 0x1946; 0x19d0; 0x1a80; 0x1a90; 0x1b50; 0x1bb0;
   0x1c40; 0x1c50; 0xa620; 0xa8d0; 0xa900; 0xa9d0; 0xa9f0; 0xaa50;
   0xabf0; 0xff10; 0x104a0; 0x10d30; 0x11066; 0x110f0; 0x11136; 0x111d0;
   0x112f0; 0x11450; 0x114d0; 0x11650; 0x116c0; 0x11730; 0x118e0;
   0x11950; 0x11c50; 0x11d50; 0x11da0; 0x16a60; 0x16ac0; 0x16b50;
   0x1d7ce; 0x1d7d8; 0x1d7e2; 0x1d7ec; 0x1d7f6; 0x1e140; 0x1e2f0;
   0x1e950; 0x1fbf0]%N.

(** [Py_UNICODE_TODECIMAL]. *)
Definition to_decimal (c : N) : option N :=
  match List.find (fun z => N.leb z c && N.ltb c (z + 10)) decimal_zeros with
  | Some z => Some (c - z)%N
  | None => None
  end.

(** [Py_UNICODE_ISSPACE] above the ASCII range. *)
Definition unicode_space (c : N) : bool :=
  existsb (N.eqb c)
    [0x85; 0xa0; 0x1680; 0x2000; 0x2001; 0x2002; 0x2003; 0x2004; 0x2005;
     0x2006; 0x2007; 0x2008; 0x2009; 0x200a; 0x2028; 0x2029; 0x202f;
     0x205f; 0x3000]%N.

(** [Py_ISSPACE]: blank, tab, line feed, vertical tab, form feed,
    carriage return. *)
Definition ascii_space (c : N) : bool :=
  N.eqb c 32 || (N.leb 9 c && N.leb c 13).

(** One character of the ASCII image; [None] is the invalid mark. *)
Definition to_ascii (c : N) : option N :=
  if N.ltb c 127 then Some c
  else if unicode_space c then Some SPACE
  else match to_decimal c with
       | Some d => Some (48 + d)%N
       | None => None
       end.

Fixpoint transform (s : pystr) : option pystr :=
  match s with
  | [] => Some []
  | c :: s' =>
      match to_ascii c, transform s' with
      | Some a, Some t => Some (a :: t)
      | _, _ => None
      end
  end.

Definition is_digit (c : N) : bool := N.leb 48 c && N.leb c 57.

Fixpoint skip_spaces (s : pystr) : pystr :=
  match s with
  | c :: s' => if ascii_space c then skip_spaces s' else s
  | [] => []
  end.

(** The digit scan: [acc] is the value read so far, [prev] the last
    character scanned.  It stops at the first character that is neither a
    digit nor an underscore and fails on a doubled or a trailing
    underscore and on an empty scan. *)
Fixpoint scan_digits (s : pystr) (acc : Z) (prev : option N)
  : option (Z * pystr) :=
  let finish :=
    match prev with
    | None => None
    | Some p => if N.eqb p UNDERSCORE then None else Some (acc, s)
    end in
  match s with
  | c :: s' =>
      if is_digit c then
        scan_digits s' (10 * acc + Z.of_N (c - 48)) (Some c)
      else if N.eqb c UNDERSCORE then
        match prev with
        | None => None
        | Some p =>
            if N.eqb p UNDERSCORE then None
            else scan_digits s' acc (Some c)
        end
      else finish
  | [] => finish
  end.

Definition int_ascii (s : pystr) : option Z :=
  let s1 := skip_spaces s in
  let '(sign, s2) :=
    match s1 with
    | c :: s' =>
        if N.eqb c PLUS then (1, s')
        else if N.eqb c HYPHEN then (-1, s')
        else (1, s1)
    | [] => (1, s1)
    end in
  match scan_digits s2 0 None with
  | Some (v, rest) =>
      match skip_spaces rest with
      | [] => Some (sign * v)
      | _ :: _ => None
      end
  | None => None
  end.

(** [int(s)]: [None] stands for the [ValueError]. *)
Definition int (s : pystr) : option Z :=
  match transform s with
  | Some t => int_ascii t
  | None => None
  end.

(** [str(n)] for an [int]. *)
Definition str_of_int (n : Z) : pystr :=
  lit (NilZero.string_of_int (Z.to_int n)).

(** [s.zfill(width)]: zeros on the left up to [width], after the sign. *)
Definition zfill (width : nat) (s : pystr) : pystr :=
  let pad := repeat 48%N (width - length s)%nat in
  match s with
  | c :: s' =>
      if N.eqb c PLUS || N.eqb c HYPHEN then c :: pad ++ s'
      else pad ++ s
  | [] => pad
  end.

End PyStr.

Import PyStr.

(* ===================================================================== *)
(** ** Numbers *)
(* ===================================================================== *)

(** [round(x)] on a float: the nearest integer, a tie goes to the even
    one. *)
Definition py_round (x : Q) : Z :=
  let f := Qfloor x in
  let r := (x - inject_Z f)%Q in
  match (r ?= 1 # 2)%Q with
  | Lt => f
  | Gt => f + 1
  | Eq => if Z.even f then f else f + 1
  end.

(** [math.ceil(x)]. *)
Definition math_ceil (x : Q) : Z := Qceiling x.

(** [n / d] on two ints: the true division. *)
Definition true_div (n d : Z) : Q := (inject_Z n / inject_Z d)%Q.

(* ===================================================================== *)
(** ** Helper functions *)
(* ===================================================================== *)

(** [clean_interval_string]: the argument is the text of the cell
    ([str(interval_str)]). *)
Definition clean_interval_string (interval_str : pystr) : pystr :=
  replace COMMA []
    (replace SPACE []
       (replace EM_DASH [HYPHEN]
          (replace EN_DASH [HYPHEN]
             (replace A_CIRCUMFLEX [HYPHEN] interval_str)))).

(** [parse_interval]: [a, b = map(int, interval_str.split('-'))] succeeds
    when there are exactly two fields and both are integers; every failure
    is a [ValueError], answered by [(None, None)]. *)
Definition parse_interval (interval_str : pystr) : option Z * option Z :=
  match split HYPHEN interval_str with
  | [fa; fb] =>
      match int fa, int fb with
      | Some a, Some b => (Some a, Some b)
      | _, _ => (None, None)
      end
  | _ => (None, None)
  end.


(** The midpoint of a cleaned label, [None] when it does not parse: the
    [if a is not None and b is not None] of the display and of the
    sampler. *)
Definition midpoint_of (interval : pystr) : option Z :=
  match parse_interval interval with
  | (Some a, Some b) => Some (math_ceil (true_div (a + b) 2))
  | _ => None
  end.

(* ===================================================================== *)
(** ** Distribution tables *)
(* ===================================================================== *)

(** A row of the DataFrame returned by [load_distribusi_from_excel], with
    its six columns. *)
Record DistRow := {
  No : Z;
  Interval_Kelas : pystr;        (* 'Interval Kelas ' *)
  Frekuensi : Z;
  Probabilitas : Q;
  Prob_Kumulatif : Q;            (* 'Prob Kumulatif ' *)
  Prob_Kumulatif_100 : Q;        (* 'Prob Kumulatif * 100' *)
}.

(** A DataFrame of a distribution: its rows in index order;
    [pd.DataFrame()] is the empty list. *)
Abbreviation DataFrame := (list DistRow).

(** A random-number band [lower_bound .. upper_bound]. *)
Abbreviation band := (Z * Z)%type.

Definition in_band (random_number : Z) (b : band) : bool :=
  (fst b <=? random_number) && (random_number <=? snd b).

(** *** [display_distribution_table] *)

(** A row of the frame shown on the page ([cols_to_display]). *)
Record DisplayRow := {
  d_No : Z;
  d_Interval_Kelas : pystr;
  d_Frekuensi : Z;
  d_Probabilitas : Q;
  d_Prob_Kumulatif : Q;
  d_Prob_Kumulatif_100 : Q;
  d_Titik_Tengah : option Z;
  d_Interval_Angka_Acak : pystr;
}.

(** Step 1: the 'Titik Tengah' column. *)
Definition midpoints (display_df : DataFrame) : list (option Z) :=
  map (fun row => midpoint_of (clean_interval_string (Interval_Kelas row)))
      display_df.

(** Step 2: the walk that fills 'Interval Angka Acak'; it starts with
    [lower_bound = 0]. *)
Fixpoint band_walk (rows : DataFrame) (lower_bound : Z) : list band :=
  match rows with
  | [] => []
  | row :: rest =>
      let upper_bound := py_round (Prob_Kumulatif_100 row) in
      (lower_bound, upper_bound) :: band_walk rest (upper_bound + 1)
  end.

Definition display_bands (display_df : DataFrame) : list band :=
  band_walk display_df 0.

(** [f"{str(lower_bound).zfill(2)} - {str(upper_bound).zfill(2)}"]. *)
Definition band_text (b : band) : pystr :=
  zfill 2 (str_of_int (fst b)) ++ lit " - " ++ zfill 2 (str_of_int (snd b)).

Definition make_display_row (row : DistRow) (mid : option Z) (b : band)
  : DisplayRow :=
  {| d_No := No row;
     d_Interval_Kelas := clean_interval_string (Interval_Kelas row);
     d_Frekuensi := Frekuensi row;
     d_Probabilitas := Probabilitas row;
     d_Prob_Kumulatif := Prob_Kumulatif row;
     d_Prob_Kumulatif_100 := Prob_Kumulatif_100 row;
     d_Titik_Tengah := mid;
     d_Interval_Angka_Acak := band_text b |}.

Fixpoint zip3 (rows : DataFrame) (mids : list (option Z)) (bands : list band)
  : list DisplayRow :=
  match rows, mids, bands with
  | row :: rows', mid :: mids', b :: bands' =>
      make_display_row row mid b :: zip3 rows' mids' bands'
  | _, _, _ => []
  end.

(** The frame handed to [st.dataframe]; the function works on a copy of
    its argument. *)
Definition display_distribution_table (df : DataFrame) : list DisplayRow :=
  let display_df := df in
  zip3 display_df (midpoints display_df) (display_bands display_df).

(** *** The walk of [get_simulation_value] *)

(** The [for] loop of the sampler, from the row it stands at, with the
    current [lower_bound]. *)
Fixpoint sampler_walk (rows : DataFrame) (random_number lower_bound : Z) : Z :=
  match rows with
  | [] => 0
  | row :: rest =>
      let upper_bound := py_round (Prob_Kumulatif_100 row) in
      if (lower_bound <=? random_number) && (random_number <=? upper_bound)
      then
        let interval := clean_interval_string (Interval_Kelas row) in
        match parse_interval interval with
        | (Some a, Some b) => math_ceil (true_div (a + b) 2)
        | _ => 0
        end
      else sampler_walk rest random_number (upper_bound + 1)
  end.

(** The comparisons the same loop makes, in order: the pair
    [(lower_bound, upper_bound)] tested at each row it reaches. *)
Fixpoint sampler_tests (rows : DataFrame) (random_number lower_bound : Z)
  : list band :=
  match rows with
  | [] => []
  | row :: rest =>
      let upper_bound := py_round (Prob_Kumulatif_100 row) in
      (lower_bound, upper_bound) ::
      (if (lower_bound <=? random_number) && (random_number <=? upper_bound)
       then []
       else sampler_tests rest random_number (upper_bound + 1))
  end.

(** Sampling read off the displayed bands: the midpoint (0 when the label
    does not parse) of the first row whose displayed band holds the draw,
    0 when there is none. *)
Fixpoint lookup_band (rows : DataFrame) (bands : list band) (random_number : Z)
  : Z :=
  match rows, bands with
  | row :: rows', b :: bands' =>
      if in_band random_number b
      then default 0 (midpoint_of (clean_interval_string (Interval_Kelas row)))
      else lookup_band rows' bands' random_number
  | _, _ => 0
  end.

(* ===================================================================== *)
(** ** The world of a run *)
(* ===================================================================== *)

(** References to DataFrame objects. *)
Abbreviation loc := positive.

(** What the page receives. *)
Inductive ui_event :=
| Progress (fraction : Q)       (* [st.progress] and [my_bar.progress] *)
| ProgressEmpty                 (* [my_bar.empty()] *)
| Spinner (periods : Z)         (* [st.spinner] *)
| ErrorNotPositive              (* "... harus lebih besar dari 0." *)
| ErrorNotInteger               (* "Input tidak valid. ..." *)
| InfoEnterValid.               (* "Masukkan jumlah periode ... valid ..." *)

Record World := {
  heap : gmap loc DataFrame;    (* the DataFrame objects *)
  entropy : nat -> Z;           (* what the generator will produce *)
  drawn : nat;                  (* how many draws were made *)
  ui : list ui_event;           (* the events sent to the page, in order *)
}.

Definition M (A : Type) : Type := World -> A * World.

#[global] Instance M_ret : MRet M := fun A x w => (x, w).
#[global] Instance M_bind : MBind M :=
  fun A B f m w => let '(x, w') := m w in f x w'.

(** [pd.DataFrame()]: a new, empty DataFrame object. *)
Definition new_DataFrame : M loc := fun w =>
  let l := fresh (dom (heap w)) in
  (l, {| heap := <[l := []]> (heap w); entropy := entropy w;
         drawn := drawn w; ui := ui w |}).

(** [df.iterrows()]: the rows of the object, read. *)
Definition iterrows (df : loc) : M (list DistRow) := fun w =>
  (default [] (heap w !! df), w).

(** [random.randint(a, b)]: the next value of the generator, in [a..b]. *)
Definition randint (a b : Z) : M Z := fun w =>
  (a + entropy w (drawn w) mod (b - a + 1),
   {| heap := heap w; entropy := entropy w; drawn := S (drawn w);
      ui := ui w |}).

Definition emit (e : ui_event) : M unit := fun w =>
  (tt, {| heap := heap w; entropy := entropy w; drawn := drawn w;
          ui := ui w ++ [e] |}).

(** [d.get(key, default)] on the dict of tables. *)
Definition dict_get (d : gmap string loc) (key : string) (default_ : loc)
  : loc :=
  default default_ (d !! key).

(** The table a category samples from: the rows of the DataFrame the dict
    holds for it, no row when the category is absent. *)
Definition table_of (w : World) (d : gmap string loc) (key : string)
  : DataFrame :=
  match d !! key with
  | Some l => default [] (heap w !! l)
  | None => []
  end.

(* ===================================================================== *)
(** ** Simulation logic *)
(* ===================================================================== *)

(** [get_simulation_value(df, random_number)]. *)
Definition get_simulation_value (df : loc) (random_number : Z) : M Z :=
  rows ← iterrows df;
  mret (sampler_walk rows random_number 0).

(** A record of [simulation_results]. *)
Record SimRow := {
  Periode : Z;
  Angka_Acak_A : Z;
  Angka_Acak_B : Z;
  Angka_Acak_AB : Z;
  Angka_Acak_O : Z;
  Simulasi_A : Z;
  Simulasi_B : Z;
  Simulasi_AB : Z;
  Simulasi_O : Z;
  Total_Simulasi : Z;
  Pmk_A : Q;
  Pmk_B : Q;
  Pmk_AB : Q;
  Pmk_O : Q;
}.

(** [(sim / total_sim * 100) if total_sim else 0]. *)
Definition share (sim total_sim : Z) : Q :=
  if total_sim =? 0 then 0%Q else (true_div sim total_sim * 100)%Q.

(** The body of the [for] loop for the index [i], up to the record that
    is appended. *)
Definition simulate_period (distribusi_dict : gmap string loc) (i : Z)
  : M SimRow :=
  a_acak ← randint 0 99;
  b_acak ← randint 0 99;
  ab_acak ← randint 0 99;
  o_acak ← randint 0 99;
  da ← new_DataFrame;
  sim_a ← get_simulation_value (dict_get distribusi_dict "A" da) a_acak;
  db ← new_DataFrame;
  sim_b ← get_simulation_value (dict_get distribusi_dict "B" db) b_acak;
  dab ← new_DataFrame;
  sim_ab ← get_simulation_value (dict_get distribusi_dict "AB" dab) ab_acak;
  d_o ← new_DataFrame;
  sim_o ← get_simulation_value (dict_get distribusi_dict "O" d_o) o_acak;
  let total_sim := sim_a + sim_b + sim_ab + sim_o in
  let pa := share sim_a total_sim in
  let pb := share sim_b total_sim in
  let pab := share sim_ab total_sim in
  let po := share sim_o total_sim in
  let record :=
    {| Periode := i + 1;
       Angka_Acak_A := a_acak; Angka_Acak_B := b_acak;
       Angka_Acak_AB := ab_acak; Angka_Acak_O := o_acak;
       Simulasi_A := sim_a; Simulasi_B := sim_b;
       Simulasi_AB := sim_ab; Simulasi_O := sim_o;
       Total_Simulasi := total_sim;
       Pmk_A := pa; Pmk_B := pb; Pmk_AB := pab; Pmk_O := po |} in
  mret record.

(** [for i in range(num_simulations)], with [remaining] turns to go from
    the index [i]: the record is appended to [simulation_results], then
    the progress bar is updated. *)
Fixpoint simulation_loop (distribusi_dict : gmap string loc)
    (num_simulations : Z) (remaining : nat) (i : Z)
    (simulation_results : list SimRow) : M (list SimRow) :=
  match remaining with
  | O => mret simulation_results
  | S remaining' =>
      record ← simulate_period distribusi_dict i;
      let simulation_results := simulation_results ++ [record] in
      _ ← emit (Progress (true_div (i + 1) num_simulations));
      simulation_loop distribusi_dict num_simulations remaining' (i + 1)
        simulation_results
  end.

(** [run_monte_carlo_simulation(distribusi_dict, num_simulations)]:
    [range(n)] has [Z.to_nat n] elements, none when [n <= 0]. *)
Definition run_monte_carlo_simulation (distribusi_dict : gmap string loc)
    (num_simulations : Z) : M (list SimRow) :=
  _ ← emit (Progress 0);
  simulation_results ←
    simulation_loop distribusi_dict num_simulations
      (Z.to_nat num_simulations) 0 [];
  _ ← emit ProgressEmpty;
  mret simulation_results.

(** The handler of the button of the main block, up to the call of the
    engine: [None] when the input is rejected, the result table
    otherwise. *)
Definition on_run_button (distribusi_data : gmap string loc)
    (num_simulations_str : pystr) : M (option (list SimRow)) :=
  match int num_simulations_str with
  | Some num_simulations_input =>
      if num_simulations_input <=? 0 then
        _ ← emit ErrorNotPositive;
        _ ← emit InfoEnterValid;
        mret None
      else
        _ ← emit (Spinner num_simulations_input);
        simulation_df ←
          run_monte_carlo_simulation distribusi_data num_simulations_input;
        mret (Some simulation_df)
  | None =>
      _ ← emit ErrorNotInteger;
      _ ← emit InfoEnterValid;
      mret None
  end.

(* ===================================================================== *)
(** ** Summary analysis *)
(* ===================================================================== *)

(** [Series.idxmax()] on the default index: the position of the first
    occurrence of the maximum.  [best_i] and [best] are the position and
    the value kept so far, [i] the position of the head of [xs]. *)
Fixpoint idxmax_from (xs : list Z) (i best_i : nat) (best : Z) : nat :=
  match xs with
  | [] => best_i
  | x :: xs' =>
      if best <? x then idxmax_from xs' (S i) i x
      else idxmax_from xs' (S i) best_i best
  end.

Fixpoint idxmin_from (xs : list Z) (i best_i : nat) (best : Z) : nat :=
  match xs with
  | [] => best_i
  | x :: xs' =>
      if x <? best then idxmin_from xs' (S i) i x
      else idxmin_from xs' (S i) best_i best
  end.

Definition idxmax (xs : list Z) : option nat :=
  match xs with
  | [] => None
  | x :: xs' => Some (idxmax_from xs' 1 0 x)
  end.

Definition idxmin (xs : list Z) : option nat :=
  match xs with
  | [] => None
  | x :: xs' => Some (idxmin_from xs' 1 0 x)
  end.

(** The two periods [perform_summary_analysis] reports:
    [sim_df.loc[sim_df['Total Simulasi'].idxmax()]] and the same with
    [idxmin], under [if not sim_df.empty]; [None] is the "no data"
    message. *)
Definition extremes (sim_df : list SimRow) : option (SimRow * SimRow) :=
  match sim_df with
  | [] => None
  | _ :: _ =>
      let totals := map Total_Simulasi sim_df in
      match idxmax totals, idxmin totals with
      | Some i, Some j =>
          match sim_df !! i, sim_df !! j with
          | Some max_total_usage_period, Some min_total_usage_period =>
              Some (max_total_usage_period, min_total_usage_period)
          | _, _ => None
          end
      | _, _ => None
      end
  end.

(* ===================================================================== *)
(** ** Decision insights *)
(* ===================================================================== *)

(** [Series.mean()] of a column that is not empty: the sum over the number
    of rows. *)
Definition series_mean (xs : list Z) : Q :=
  true_div (fold_right Z.add 0 xs) (Z.of_nat (length xs)).

(** The dict [avg_usages], in the order of its keys. *)
Definition avg_usages (sim_df : list SimRow) : list (string * Q) :=
  [ ("A", series_mean (map Simulasi_A sim_df));
    ("B", series_mean (map Simulasi_B sim_df));
    ("AB", series_mean (map Simulasi_AB sim_df));
    ("O", series_mean (map Simulasi_O sim_df)) ].

(** One item put in its place in a ranked list: after the items with a
    greater value, before the others. *)
Fixpoint insert_desc (item : string * Q) (ranked : list (string * Q))
  : list (string * Q) :=
  match ranked with
  | [] => [item]
  | y :: rest =>
      if Qle_bool (snd y) (snd item) then item :: y :: rest
      else y :: insert_desc item rest
  end.

(** [sorted(items, key=lambda item: item[1], reverse=True)]: the values in
    descending order; the sort is stable, so items with equal values keep
    the order they have in [items]. *)
Definition sorted_reverse (items : list (string * Q)) : list (string * Q) :=
  fold_right insert_desc [] items.

(** What [provide_decision_insights] reports. *)
Record Insights := {
  total_avg_usage : Q;
  sorted_avg_usages : list (string * Q);
  peak_periods : option (SimRow * SimRow);
}.

(** [provide_decision_insights]: [None] is the early return on an empty
    table ("no data"). *)
Definition provide_decision_insights (sim_df : list SimRow)
  : option Insights :=
  match sim_df with
  | [] => None
  | _ :: _ =>
      Some {| total_avg_usage := series_mean (map Total_Simulasi sim_df);
              sorted_avg_usages := sorted_reverse (avg_usages sim_df);
              peak_periods := extremes sim_df |}
  end.

(** [sorted_avg_usages[0][0]], [sorted_avg_usages[1][0]] and
    [sorted_avg_usages[-1][0]]: the categories named highest, second and
    lowest. *)
Definition highest_category (ins : Insights) : option string :=
  fst <$> head (sorted_avg_usages ins).

Definition second_category (ins : Insights) : option string :=
  fst <$> (sorted_avg_usages ins !! 1%nat).

Definition lowest_category (ins : Insights) : option string :=
  fst <$> last (sorted_avg_usages ins).

(** The items of a list whose value is [q]. *)
Definition with_value (q : Q) (items : list (string * Q))
  : list (string * Q) :=
  List.filter (fun item => Qeq_bool (snd item) q) items.

(* ===================================================================== *)
(** ** Vocabulary of the statements *)
(* ===================================================================== *)

(** The rounded cumulative percentages of a table, in row order. *)
Definition uppers (df : DataFrame) : list Z :=
  map (fun row => py_round (Prob_Kumulatif_100 row)) df.

(** A sequence of integers that never decreases from one entry to the
    next. *)
Definition nondecreasing (us : list Z) : Prop :=
  forall (i : nat) (a b : Z), us !! i = Some a -> us !! S i = Some b -> a <= b.

(** No band among [bands] before position [i] holds the draw. *)
Definition none_before (bands : list band) (random_number : Z) (i : nat)
  : Prop :=
  forall (j : nat) (b : band),
    (j < i)%nat -> bands !! j = Some b -> in_band random_number b = false.

(** The rows read through a reference. *)
Definition rows_at (w : World) (l : loc) : DataFrame :=
  default [] (heap w !! l).

(** Every DataFrame object of [w] is in [w'] with the same rows, and every
    reference reads the same rows in both. *)
Definition same_tables (w w' : World) : Prop :=
  (forall l rows, heap w !! l = Some rows -> heap w' !! l = Some rows) /\
  (forall l, rows_at w' l = rows_at w l).

(** The [k]-th value [random.randint(0, 99)] produces in the world [w]. *)
Definition draw_at (w : World) (k : nat) : Z :=
  0 + entropy w k mod (99 - 0 + 1).

(** The record of a period, from the four tables, the index [i] of the
    loop and the four draws. *)
Definition period_record (tA tB tAB tO : DataFrame) (i a b ab o : Z)
  : SimRow :=
  let sim_a := sampler_walk tA a 0 in
  let sim_b := sampler_walk tB b 0 in
  let sim_ab := sampler_walk tAB ab 0 in
  let sim_o := sampler_walk tO o 0 in
  let total_sim := sim_a + sim_b + sim_ab + sim_o in
  {| Periode := i + 1;
     Angka_Acak_A := a; Angka_Acak_B := b;
     Angka_Acak_AB := ab; Angka_Acak_O := o;
     Simulasi_A := sim_a; Simulasi_B := sim_b;
     Simulasi_AB := sim_ab; Simulasi_O := sim_o;
     Total_Simulasi := total_sim;
     Pmk_A := share sim_a total_sim; Pmk_B := share sim_b total_sim;
     Pmk_AB := share sim_ab total_sim; Pmk_O := share sim_o total_sim |}.

(** The record of the [k]-th turn of a loop entered in the world [w] with
    the index [i]: it uses the draws [4k .. 4k+3] after those already
    made. *)
Definition nth_period (w : World) (d : gmap string loc) (i : Z) (k : nat)
  : SimRow :=
  period_record (table_of w d "A") (table_of w d "B")
    (table_of w d "AB") (table_of w d "O")
    (i + Z.of_nat k)
    (draw_at w (drawn w + 4 * k))
    (draw_at w (drawn w + 4 * k + 1))
    (draw_at w (drawn w + 4 * k + 2))
    (draw_at w (drawn w + 4 * k + 3)).

(** The progress events of [remaining] turns from the index [i]. *)
Definition progress_events (num_simulations i : Z) (remaining : nat)
  : list ui_event :=
  map (fun k => Progress (true_div (i + Z.of_nat k + 1) num_simulations))
      (seq 0 remaining).

(** The characters [clean_interval_string] replaces or removes. *)
Definition cleaned_away : list N :=
  [A_CIRCUMFLEX; EN_DASH; EM_DASH; SPACE; COMMA].

(** The text of a class interval with the bounds [a] and [b]:
    [f"{a}-{b}"]. *)
Definition interval_label (a b : Z) : pystr :=
  str_of_int a ++ [HYPHEN] ++ str_of_int b.

(** The characters of a sequence of decimal digits. *)
Definition digits_of (d : Decimal.uint) : pystr :=
  lit (NilEmpty.string_of_uint d).

(* ===================================================================== *)
(** ** Sample data *)
(* ===================================================================== *)

Definition sample_row (no : Z) (label : string) (freq : Z) (p cum : Q)
  : DistRow :=
  {| No := no; Interval_Kelas := lit label; Frekuensi := freq;
     Probabilitas := p; Prob_Kumulatif := cum;
     Prob_Kumulatif_100 := Qred (cum * 100) |}.

(** Two rows, bands 0..50 and 51..80; the label of the second row is not
    an interval. *)
Definition table_two : DataFrame :=
  [ sample_row 1 "1-10" 5 (5 # 10) (5 # 10);
    sample_row 2 "n/a" 3 (3 # 10) (8 # 10) ].

(** Three rows covering 0..100. *)
Definition table_three : DataFrame :=
  [ sample_row 1 "103-130" 2 (2 # 10) (2 # 10);
    sample_row 2 "131-158" 5 (5 # 10) (7 # 10);
    sample_row 3 "159-186" 3 (3 # 10) 1 ].

(** A world with [table_two] at 1, an empty DataFrame at 2 and
    [table_three] at 3. *)
Definition world_sample : World :=
  {| heap := {[ 1%positive := table_two; 2%positive := [];
                3%positive := table_three ]};
     entropy := fun k => Z.of_nat k * 37 + 5;
     drawn := 0;
     ui := [] |}.

(** Only the category A has a table. *)
Definition dict_only_A : gmap string loc :=
  {[ "A" := 3%positive; "B" := 2%positive ]}.

(** Four periods simulated in [world_sample]: the totals are 117, 145, 117
    and 145. *)
Definition sample_results : list SimRow :=
  fst (run_monte_carlo_simulation dict_only_A 4 world_sample).

(** The second of these periods. *)
Definition sample_period_2 : SimRow := nth_period world_sample dict_only_A 0 1.

(* ===================================================================== *)
(** * Properties *)
(* ===================================================================== *)

(** ** Strings and numbers *)

Lemma split_field_no_sep (sep : N) (s f : pystr) :
  f ∈ split sep s -> sep ∉ f.
Proof.
  revert f. induction s as [|c s IH]; intros f Hf; simpl in Hf.
  - apply list_elem_of_singleton in Hf. subst f. apply not_elem_of_nil.
  - destruct (N.eqb_spec c sep) as [->|Hne].
    + apply elem_of_cons in Hf as [->|Hf]; [apply not_elem_of_nil | auto].
    + destruct (split sep s) as [|field fields] eqn:E.
      * apply list_elem_of_singleton in Hf. subst f.
        intros H. apply list_elem_of_singleton in H. congruence.
      * apply elem_of_cons in Hf as [->|Hf].
        -- intros H. apply elem_of_cons in H as [H|H]; [congruence|].
           revert H. apply IH. left.
        -- apply IH. now right.
Qed.

Lemma to_ascii_not_hyphen (c a : N) :
  to_ascii c = Some a -> c <> HYPHEN -> a <> HYPHEN.
Proof.
  unfold to_ascii, HYPHEN, SPACE. intros H Hc.
  destruct (N.ltb c 127); [congruence|].
  destruct (unicode_space c); [injection H as <-; discriminate|].
  destruct (to_decimal c) as [d|]; [|discriminate].
  injection H as <-. lia.
Qed.

Lemma transform_no_hyphen (s t : pystr) :
  transform s = Some t -> HYPHEN ∉ s -> HYPHEN ∉ t.
Proof.
  revert t. induction s as [|c s IH]; intros t H Hs; simpl in H.
  - injection H as <-. apply not_elem_of_nil.
  - destruct (to_ascii c) as [a|] eqn:Ea; [|discriminate].
    destruct (transform s) as [t'|]; [|discriminate].
    injection H as <-. apply not_elem_of_cons in Hs as [Hc Hs].
    apply not_elem_of_cons. split; [|now apply IH].
    intros Heq. eapply to_ascii_not_hyphen; eauto.
Qed.

Lemma scan_digits_nonneg (s : pystr) (acc : Z) (prev : option N) v rest :
  scan_digits s acc prev = Some (v, rest) -> 0 <= acc -> 0 <= v.
Proof.
  revert acc prev. induction s as [|c s IH]; intros acc prev H Hacc; simpl in H.
  - destruct prev as [p|]; [|discriminate].
    destruct (N.eqb p UNDERSCORE); [discriminate|]. congruence.
  - destruct (is_digit c).
    + eapply IH; [exact H|]. lia.
    + destruct (N.eqb c UNDERSCORE).
      * destruct prev as [p|]; [|discriminate].
        destruct (N.eqb p UNDERSCORE); [discriminate|]. eapply IH; eauto.
      * destruct prev as [p|]; [|discriminate].
        destruct (N.eqb p UNDERSCORE); [discriminate|]. congruence.
Qed.

Lemma skip_spaces_subset (s : pystr) (c : N) :
  c ∈ skip_spaces s -> c ∈ s.
Proof.
  induction s as [|x s IH]; simpl; [done|].
  destruct (ascii_space x); [|done]. intros H. right. auto.
Qed.

Lemma int_ascii_nonneg (t : pystr) (v : Z) :
  int_ascii t = Some v -> HYPHEN ∉ t -> 0 <= v.
Proof.
  unfold int_ascii. intros H Ht.
  assert (Hs : HYPHEN ∉ skip_spaces t)
    by (intros Hin; apply Ht; now apply skip_spaces_subset).
  destruct (skip_spaces t) as [|c s'] eqn:E.
  - simpl in H. discriminate.
  - destruct (N.eqb c PLUS).
    + destruct (scan_digits s' 0 None) as [[v0 rest]|] eqn:Es; [|discriminate].
      destruct (skip_spaces rest); [|discriminate].
      injection H as <-. apply scan_digits_nonneg in Es; lia.
    + destruct (N.eqb_spec c HYPHEN) as [->|Hne].
      * exfalso. apply Hs. left.
      * destruct (scan_digits (c :: s') 0 None) as [[v0 rest]|] eqn:Es;
          [|discriminate].
        destruct (skip_spaces rest); [|discriminate].
        injection H as <-. apply scan_digits_nonneg in Es; lia.
Qed.

(** A field without a hyphen never reads as a negative integer. *)
Lemma int_nonneg (s : pystr) (v : Z) :
  int s = Some v -> HYPHEN ∉ s -> 0 <= v.
Proof.
  unfold int. intros H Hs.
  destruct (transform s) as [t|] eqn:Et; [|discriminate].
  eapply int_ascii_nonneg; eauto using transform_no_hyphen.
Qed.

(** [parse_interval] answers two integers or [(None, None)], and the
    integers are not negative. *)
Lemma parse_interval_cases (interval : pystr) :
  parse_interval interval = (None, None) \/
  exists a b, parse_interval interval = (Some a, Some b) /\ 0 <= a /\ 0 <= b.
Proof.
  unfold parse_interval.
  destruct (split HYPHEN interval) as [|fa [|fb [|fc fs]]] eqn:E; auto.
  assert (Ha : HYPHEN ∉ fa)
    by (apply (split_field_no_sep HYPHEN interval); rewrite E; left).
  assert (Hb : HYPHEN ∉ fb)
    by (apply (split_field_no_sep HYPHEN interval); rewrite E; right; left).
  destruct (int fa) as [a|] eqn:Ea; auto.
  destruct (int fb) as [b|] eqn:Eb; auto.
  right. exists a, b. eauto using int_nonneg.
Qed.

Lemma math_ceil_half_nonneg (n : Z) : 0 <= n -> 0 <= math_ceil (true_div n 2).
Proof.
  intros Hn. unfold math_ceil, true_div.
  change 0 with (Qceiling 0). apply Qceiling_resp_le.
  apply Qle_shift_div_l; [reflexivity|].
  rewrite Qmult_0_l. change 0%Q with (inject_Z 0). now rewrite <- Zle_Qle.
Qed.

Lemma midpoint_of_nonneg (interval : pystr) (m : Z) :
  midpoint_of interval = Some m -> 0 <= m.
Proof.
  unfold midpoint_of.
  destruct (parse_interval_cases interval) as [->|(a & b & -> & Ha & Hb)];
    [discriminate|].
  intros [= <-]. apply math_ceil_half_nonneg. lia.
Qed.

(** C2 (the code departs from the claim).  The label "103", U+00E2, "-130"
    is cleaned to "103--130", with two hyphens: the replacement turns
    U+00E2 into a hyphen and keeps the hyphen that follows.  That text
    splits in three fields, so [parse_interval] answers [(None, None)] and
    there is no midpoint.  The label "103-130" itself parses to (103, 130)
    with midpoint 117, and so does "103", U+00E2, "130". *)
Theorem clean_interval_string_docstring_label :
  let label := lit "103" ++ [A_CIRCUMFLEX] ++ lit "-130" in
  clean_interval_string label = lit "103--130" /\
  split HYPHEN (clean_interval_string label) = [lit "103"; []; lit "130"] /\
  parse_interval (clean_interval_string label) = (None, None) /\
  midpoint_of (clean_interval_string label) = None /\
  parse_interval (clean_interval_string (lit "103-130")) = (Some 103, Some 130) /\
  midpoint_of (clean_interval_string (lit "103-130")) = Some 117 /\
  midpoint_of (clean_interval_string (lit "103" ++ [A_CIRCUMFLEX] ++ lit "130"))
    = Some 117.
Proof. vm_compute. repeat split. Qed.

(** ** Values checked against the interpreter *)

Example int_values :
  map int [lit "12"; lit " 12 "; lit "+5"; lit "-3"; lit "007"; lit "1_0";
           [0x661; 0x662]%N; [0xa0; 53]%N]
  = [Some 12; Some 12; Some 5; Some (-3); Some 7; Some 10; Some 12; Some 5].
Proof. reflexivity. Qed.

Example int_errors :
  map int [lit ""; lit "_1"; lit "1__0"; lit "1_"; lit "+ 5"; lit "--5";
           lit "0x10"; lit "1.5"; lit "n/a"; [0x1c; 53]%N; [53; 0]%N;
           [A_CIRCUMFLEX]]
  = repeat None 12.
Proof. reflexivity. Qed.

Example split_values :
  split HYPHEN (lit "103-130") = [lit "103"; lit "130"] /\
  split HYPHEN (lit "103") = [lit "103"] /\
  split HYPHEN (lit "-5-10") = [[]; lit "5"; lit "10"] /\
  split HYPHEN [] = [[]].
Proof. repeat split. Qed.

Example py_round_values :
  map py_round [1 # 2; 3 # 2; 5 # 2; -1 # 2; -3 # 2; 199 # 2; 1249 # 100;
                1251 # 100; 0; 100; -7 # 3]%Q
  = [0; 2; 2; 0; -2; 100; 12; 13; 0; 100; -2].
Proof. reflexivity. Qed.

Example clean_interval_string_values :
  clean_interval_string (lit "1,003 - 1,130") = lit "1003-1130" /\
  clean_interval_string (lit "103" ++ [EN_DASH] ++ lit "130") = lit "103-130" /\
  clean_interval_string (lit "103 " ++ [EM_DASH] ++ lit " 130") = lit "103-130".
Proof. repeat split. Qed.

Example band_text_values :
  map band_text [(0, 12); (13, 57); (58, 100); (5, -2)]
  = [lit "00 - 12"; lit "13 - 57"; lit "58 - 100"; lit "05 - -2"].
Proof. reflexivity. Qed.

(** The table shown for [table_three]. *)
Example display_table_three :
  map (fun r => (d_Interval_Kelas r, d_Titik_Tengah r, d_Interval_Angka_Acak r))
      (display_distribution_table table_three)
  = [ (lit "103-130", Some 117, lit "00 - 20");
      (lit "131-158", Some 145, lit "21 - 70");
      (lit "159-186", Some 173, lit "71 - 100") ].
Proof. reflexivity. Qed.

(** ** The band walk and the sampler *)

Lemma band_walk_length (rows : DataFrame) (lo : Z) :
  length (band_walk rows lo) = length rows.
Proof. revert lo. induction rows; intros lo; simpl; auto. Qed.

Lemma band_walk_first (rows : DataFrame) (lo : Z) (b : band) :
  band_walk rows lo !! 0%nat = Some b -> fst b = lo.
Proof. destruct rows; simpl; [done|]. now intros [= <-]. Qed.

Lemma band_walk_next (rows : DataFrame) (lo : Z) (i : nat) (b b' : band) :
  band_walk rows lo !! i = Some b -> band_walk rows lo !! S i = Some b' ->
  fst b' = snd b + 1.
Proof.
  revert lo i. induction rows as [|row rows IH]; intros lo i; simpl; [done|].
  destruct i as [|i]; simpl.
  - intros [= <-] H. simpl. now apply band_walk_first in H.
  - apply IH.
Qed.

Lemma band_walk_upper (rows : DataFrame) (lo : Z) (i : nat) (row : DistRow)
    (b : band) :
  rows !! i = Some row -> band_walk rows lo !! i = Some b ->
  snd b = py_round (Prob_Kumulatif_100 row).
Proof.
  revert lo i. induction rows as [|r rows IH]; intros lo i; simpl; [done|].
  destruct i as [|i]; simpl.
  - now intros [= <-] [= <-].
  - apply IH.
Qed.

Lemma uppers_lookup (rows : DataFrame) (lo : Z) (i : nat) (b : band) :
  band_walk rows lo !! i = Some b -> uppers rows !! i = Some (snd b).
Proof.
  revert lo i. induction rows as [|row rows IH]; intros lo i; simpl; [done|].
  destruct i as [|i]; simpl; [now intros [= <-]|apply IH].
Qed.

Lemma nondecreasing_le (us : list Z) (i j : nat) (a b : Z) :
  nondecreasing us -> (i <= j)%nat -> us !! i = Some a -> us !! j = Some b ->
  a <= b.
Proof.
  intros Hmono Hij Ha. revert b. induction Hij as [|j Hij IH]; intros b Hb.
  - rewrite Ha in Hb. injection Hb as <-. lia.
  - destruct (us !! j) as [c|] eqn:Ec.
    + specialize (IH c eq_refl). specialize (Hmono j c b Ec Hb). lia.
    + apply lookup_ge_None in Ec. apply lookup_lt_Some in Hb. lia.
Qed.

Lemma in_band_spec (x : Z) (b : band) :
  in_band x b = true <-> fst b <= x <= snd b.
Proof. unfold in_band. rewrite andb_true_iff, !Z.leb_le. tauto. Qed.

(** In a table whose rounded percentages never decrease, a later band
    starts above an earlier one. *)
Lemma band_walk_ordered (rows : DataFrame) (lo : Z) (i j : nat) (b b' : band) :
  nondecreasing (uppers rows) -> (i < j)%nat ->
  band_walk rows lo !! i = Some b -> band_walk rows lo !! j = Some b' ->
  snd b < fst b'.
Proof.
  intros Hmono Hij Hb Hb'. destruct j as [|j]; [lia|].
  destruct (band_walk rows lo !! j) as [c|] eqn:Ec.
  - rewrite (band_walk_next _ _ _ _ _ Ec Hb').
    assert (snd b <= snd c); [|lia].
    eapply (nondecreasing_le (uppers rows) i j); eauto using uppers_lookup.
    lia.
  - apply lookup_ge_None in Ec. apply lookup_lt_Some in Hb'. lia.
Qed.

Lemma band_walk_covers (rows : DataFrame) (lo x u : Z) :
  last (uppers rows) = Some u -> lo <= x <= u ->
  exists i b, band_walk rows lo !! i = Some b /\ in_band x b = true.
Proof.
  revert lo. induction rows as [|row rows IH]; intros lo Hlast Hx;
    [discriminate|].
  simpl. destruct (Z_le_gt_dec x (py_round (Prob_Kumulatif_100 row))) as [Hle|Hgt].
  - exists 0%nat, (lo, py_round (Prob_Kumulatif_100 row)). split; [done|].
    apply in_band_spec. simpl. lia.
  - destruct rows as [|row' rows].
    + simpl in Hlast. injection Hlast as <-. lia.
    + destruct (IH (py_round (Prob_Kumulatif_100 row) + 1)) as (i & b & Hb & Hin).
      * exact Hlast.
      * lia.
      * exists (S i), b. split; [exact Hb|exact Hin].
Qed.

Lemma zip3_lookup (rows : DataFrame) (mids : list (option Z))
    (bands : list band) (i : nat) row mid b :
  rows !! i = Some row -> mids !! i = Some mid -> bands !! i = Some b ->
  zip3 rows mids bands !! i = Some (make_display_row row mid b).
Proof.
  revert mids bands i.
  induction rows as [|r rows IH]; intros [|m mids] [|b0 bands] [|i]; simpl;
    try done.
  - now intros [= <-] [= <-] [= <-].
  - apply IH.
Qed.

Lemma sampler_walk_lookup (rows : DataFrame) (random_number lo : Z) :
  sampler_walk rows random_number lo
  = lookup_band rows (band_walk rows lo) random_number.
Proof.
  revert lo. induction rows as [|row rows IH]; intros lo; simpl; [done|].
  unfold in_band at 1. simpl.
  destruct ((lo <=? random_number)
            && (random_number <=? py_round (Prob_Kumulatif_100 row))).
  - unfold midpoint_of.
    destruct (parse_interval (clean_interval_string (Interval_Kelas row)))
      as [[a|] [b|]]; reflexivity.
  - apply IH.
Qed.

Lemma sampler_walk_tests (rows : DataFrame) (random_number lo : Z) :
  sampler_walk rows random_number lo
  = lookup_band rows (sampler_tests rows random_number lo) random_number.
Proof.
  revert lo. induction rows as [|row rows IH]; intros lo; simpl; [done|].
  unfold in_band at 1. simpl.
  destruct ((lo <=? random_number)
            && (random_number <=? py_round (Prob_Kumulatif_100 row))).
  - unfold midpoint_of.
    destruct (parse_interval (clean_interval_string (Interval_Kelas row)))
      as [[a|] [b|]]; reflexivity.
  - apply IH.
Qed.

Lemma sampler_tests_prefix (rows : DataFrame) (random_number lo : Z) (i : nat)
    (b : band) :
  sampler_tests rows random_number lo !! i = Some b ->
  band_walk rows lo !! i = Some b.
Proof.
  revert lo i. induction rows as [|row rows IH]; intros lo i; simpl; [done|].
  destruct i as [|i]; simpl; [done|].
  destruct ((lo <=? random_number)
            && (random_number <=? py_round (Prob_Kumulatif_100 row)));
    [done|apply IH].
Qed.

Lemma sampler_tests_reach (rows : DataFrame) (random_number lo : Z) (i : nat) :
  (i < length rows)%nat ->
  none_before (band_walk rows lo) random_number i ->
  is_Some (sampler_tests rows random_number lo !! i).
Proof.
  revert lo i. induction rows as [|row rows IH]; intros lo i Hi Hnone;
    simpl in *; [lia|].
  destruct i as [|i]; simpl; [eauto|].
  assert (H0 : in_band random_number (lo, py_round (Prob_Kumulatif_100 row))
               = false) by (apply (Hnone 0%nat); [lia|done]).
  unfold in_band in H0. simpl in H0. rewrite H0.
  apply IH; [lia|]. intros j b Hj Hb. apply (Hnone (S j)); [lia|done].
Qed.

Lemma lookup_band_none (rows : DataFrame) (bands : list band)
    (random_number : Z) :
  (forall i b, bands !! i = Some b -> in_band random_number b = false) ->
  lookup_band rows bands random_number = 0.
Proof.
  revert bands. induction rows as [|row rows IH]; intros [|b bands] H; simpl;
    try done.
  rewrite (H 0%nat b eq_refl). apply IH. intros i b'. apply (H (S i)).
Qed.

(** The sampler answers for the first row whose band holds the draw. *)
Lemma lookup_band_first (rows : DataFrame) (bands : list band)
    (random_number : Z) (i : nat) (row : DistRow) (b : band) :
  rows !! i = Some row -> bands !! i = Some b ->
  in_band random_number b = true ->
  none_before bands random_number i ->
  lookup_band rows bands random_number
  = default 0 (midpoint_of (clean_interval_string (Interval_Kelas row))).
Proof.
  revert bands i. induction rows as [|r rows IH]; intros [|b0 bands] [|i];
    simpl; try done.
  - intros [= <-] [= <-] -> _. done.
  - intros Hrow Hb Hin Hnone.
    rewrite (Hnone 0%nat b0); [|lia|done].
    apply (IH bands i); auto.
    intros j b' Hj Hb'. apply (Hnone (S j)); [lia|done].
Qed.

Lemma sampler_walk_nonneg (rows : DataFrame) (random_number lo : Z) :
  0 <= sampler_walk rows random_number lo.
Proof.
  revert lo. induction rows as [|row rows IH]; intros lo; simpl; [lia|].
  destruct ((lo <=? random_number)
            && (random_number <=? py_round (Prob_Kumulatif_100 row))); [|apply IH].
  destruct (parse_interval_cases (clean_interval_string (Interval_Kelas row)))
    as [->|(a & b & -> & Ha & Hb)]; [lia|].
  apply math_ceil_half_nonneg. lia.
Qed.

Lemma get_simulation_value_run (df : loc) (random_number : Z) (w : World) :
  get_simulation_value df random_number w
  = (sampler_walk (default [] (heap w !! df)) random_number 0, w).
Proof. reflexivity. Qed.

(** ** Claims on the sampler and on the bands *)



(** C5.  In a table whose rounded cumulative percentages never decrease,
    the bands of the walk are contiguous and disjoint in table order: there
    is one band per row, the first starts at 0, each next one starts one
    above the upper bound of the previous one, the upper bound of a row is
    its rounded cumulative percentage, two different rows share no draw,
    and the bands reach up to the rounded final percentage [u]: no draw of
    a band is above [u] and every draw of 0..u is in a band. *)
Theorem bands_contiguous_disjoint (df : DataFrame) :
  nondecreasing (uppers df) ->
  length (display_bands df) = length df /\
  (forall b, display_bands df !! 0%nat = Some b -> fst b = 0) /\
  (forall i b b',
     display_bands df !! i = Some b -> display_bands df !! S i = Some b' ->
     fst b' = snd b + 1) /\
  (forall i row b,
     df !! i = Some row -> display_bands df !! i = Some b ->
     snd b = py_round (Prob_Kumulatif_100 row)) /\
  (forall i j b b' x,
     i <> j -> display_bands df !! i = Some b ->
     display_bands df !! j = Some b' ->
     in_band x b = true -> in_band x b' = false) /\
  (forall u,
     last (uppers df) = Some u ->
     (forall i b x,
        display_bands df !! i = Some b -> in_band x b = true -> x <= u) /\
     (forall x, 0 <= x <= u ->
        exists i b, display_bands df !! i = Some b /\ in_band x b = true)).
Proof.
  intros Hmono. unfold display_bands.
  split; [apply band_walk_length|].
  split; [apply band_walk_first|].
  split; [apply band_walk_next|].
  split; [intros i row b; apply band_walk_upper|].
  split.
  - intros i j b b' x Hij Hb Hb' Hin.
    apply in_band_spec in Hin.
    destruct (in_band x b') eqn:Hin'; [|done].
    apply in_band_spec in Hin'.
    destruct (Nat.lt_total i j) as [Hlt|[Heq|Hgt]]; [|done|].
    + pose proof (band_walk_ordered df 0 i j b b' Hmono Hlt Hb Hb'). lia.
    + pose proof (band_walk_ordered df 0 j i b' b Hmono Hgt Hb' Hb). lia.
  - intros u Hlast. split.
    + intros i b x Hb Hin. apply in_band_spec in Hin.
      assert (snd b <= u); [|lia].
      rewrite last_lookup in Hlast.
      apply (nondecreasing_le (uppers df) i (pred (length (uppers df))));
        eauto using uppers_lookup.
      apply uppers_lookup, lookup_lt_Some in Hb. lia.
    + intros x Hx. now apply band_walk_covers with (u := u).
Qed.

Lemma bands_contiguous_disjoint_witness :
  nondecreasing (uppers table_three) /\
  display_bands table_three = [(0, 20); (21, 70); (71, 100)] /\
  length (display_bands table_three) = length table_three.
Proof.
  assert (H : nondecreasing (uppers table_three)).
  { intros [|[|[|i]]] a b Ha Hb; vm_compute in Ha, Hb; try discriminate;
      injection Ha as <-; injection Hb as <-; lia. }
  split; [exact H|]. split; [reflexivity|].
  apply (bands_contiguous_disjoint table_three H).
Defined.

(** C9.  The band displayed for a row is the band the sampler tests for
    it.  For every table and every draw: each comparison the sampler makes
    at row [i] is against the pair of bounds of the displayed walk at row
    [i], which is the pair printed in 'Interval Angka Acak'; the sampler
    reaches every row that no earlier band has stopped it at; its answer
    is the one read off its own comparisons, and the one read off the
    displayed bands. *)
Theorem displayed_band_is_sampled_band (w : World) (df : loc)
    (random_number : Z) :
  let rows := default [] (heap w !! df) in
  let tested := sampler_tests rows random_number 0 in
  (forall i b,
     tested !! i = Some b ->
     display_bands rows !! i = Some b /\
     exists shown,
       display_distribution_table rows !! i = Some shown /\
       d_Interval_Angka_Acak shown = band_text b) /\
  (forall i,
     (i < length rows)%nat ->
     none_before (display_bands rows) random_number i ->
     is_Some (tested !! i)) /\
  get_simulation_value df random_number w
  = (lookup_band rows tested random_number, w) /\
  get_simulation_value df random_number w
  = (lookup_band rows (display_bands rows) random_number, w).
Proof.
  intros rows tested. split; [|split; [|split]].
  - intros i b Hb. apply sampler_tests_prefix in Hb. split; [exact Hb|].
    destruct (rows !! i) as [row|] eqn:Hrow.
    + exists (make_display_row row
                (midpoint_of (clean_interval_string (Interval_Kelas row))) b).
      split; [|reflexivity].
      apply zip3_lookup; [exact Hrow| |exact Hb].
      unfold midpoints. clear -Hrow. revert i Hrow.
      induction rows as [|r rs IH]; intros [|i]; simpl; try done.
      * now intros [= <-].
      * apply IH.
    + apply lookup_ge_None in Hrow. apply lookup_lt_Some in Hb.
      rewrite band_walk_length in Hb. lia.
  - intros i Hi Hnone. now apply sampler_tests_reach.
  - rewrite get_simulation_value_run. fold rows.
    now rewrite sampler_walk_tests.
  - rewrite get_simulation_value_run. fold rows.
    now rewrite sampler_walk_lookup.
Qed.

(** ** The engine *)

Lemma same_tables_refl (w : World) : same_tables w w.
Proof. split; auto. Qed.

Lemma same_tables_trans (w1 w2 w3 : World) :
  same_tables w1 w2 -> same_tables w2 w3 -> same_tables w1 w3.
Proof.
  intros [H1 H1'] [H2 H2']. split; [auto|].
  intros l. now rewrite H2', H1'.
Qed.

Lemma same_tables_table_of (w w' : World) (d : gmap string loc) (key : string) :
  same_tables w w' -> table_of w' d key = table_of w d key.
Proof.
  intros [_ H]. unfold table_of. destruct (d !! key) as [l|]; [|done].
  apply (H l).
Qed.

Lemma new_DataFrame_spec (w w' : World) (l : loc) :
  new_DataFrame w = (l, w') ->
  heap w !! l = None /\ heap w' = <[l := []]> (heap w) /\
  entropy w' = entropy w /\ drawn w' = drawn w /\ ui w' = ui w.
Proof.
  unfold new_DataFrame. intros [= <- <-]. simpl. repeat split.
  apply not_elem_of_dom, is_fresh.
Qed.

Lemma new_DataFrame_same_tables (w w' : World) (l : loc) :
  new_DataFrame w = (l, w') -> same_tables w w'.
Proof.
  intros H. apply new_DataFrame_spec in H as (Hl & Hh & _).
  split.
  - intros l0 rows Hrows. rewrite Hh, lookup_insert_ne; [done|congruence].
  - intros l0. unfold rows_at. rewrite Hh.
    destruct (decide (l = l0)) as [<-|Hne].
    + now rewrite lookup_insert_eq, Hl.
    + now rewrite lookup_insert_ne.
Qed.

(** Sampling a category: the table is the one the dict holds, an empty one
    when the category is absent. *)
Lemma sample_after_new (w w' : World) (d : gmap string loc) (key : string)
    (l : loc) (random_number : Z) :
  new_DataFrame w = (l, w') ->
  get_simulation_value (dict_get d key l) random_number w'
  = (sampler_walk (table_of w d key) random_number 0, w').
Proof.
  intros H. rewrite get_simulation_value_run. f_equal. f_equal.
  pose proof (new_DataFrame_same_tables _ _ _ H) as [_ Hrows].
  apply new_DataFrame_spec in H as (Hl & Hh & _).
  unfold dict_get, table_of. destruct (d !! key) as [l0|]; simpl.
  - apply (Hrows l0).
  - now rewrite Hh, lookup_insert_eq.
Qed.

Lemma simulate_period_spec (d : gmap string loc) (i : Z) (w : World) :
  exists w',
    simulate_period d i w = (nth_period w d i 0, w') /\
    same_tables w w' /\ entropy w' = entropy w /\
    drawn w' = (drawn w + 4)%nat /\ ui w' = ui w.
Proof.
  unfold simulate_period, mbind, M_bind, mret, M_ret, randint.
  cbn beta iota zeta delta [heap entropy drawn ui].
  set (w0 := {| heap := heap w; entropy := entropy w;
                drawn := S (S (S (S (drawn w)))); ui := ui w |}).
  assert (Hw0 : same_tables w w0)
    by (split; [intros l rows H; exact H|reflexivity]).
  destruct (new_DataFrame w0) as [da w1] eqn:E1.
  rewrite (sample_after_new _ _ d "A" _ _ E1).
  destruct (new_DataFrame w1) as [db w2] eqn:E2.
  rewrite (sample_after_new _ _ d "B" _ _ E2).
  destruct (new_DataFrame w2) as [dab w3] eqn:E3.
  rewrite (sample_after_new _ _ d "AB" _ _ E3).
  destruct (new_DataFrame w3) as [d_o w4] eqn:E4.
  rewrite (sample_after_new _ _ d "O" _ _ E4).
  pose proof (new_DataFrame_same_tables _ _ _ E1) as S1.
  pose proof (new_DataFrame_same_tables _ _ _ E2) as S2.
  pose proof (new_DataFrame_same_tables _ _ _ E3) as S3.
  pose proof (new_DataFrame_same_tables _ _ _ E4) as S4.
  apply new_DataFrame_spec in E1 as (_ & _ & He1 & Hd1 & Hu1).
  apply new_DataFrame_spec in E2 as (_ & _ & He2 & Hd2 & Hu2).
  apply new_DataFrame_spec in E3 as (_ & _ & He3 & Hd3 & Hu3).
  apply new_DataFrame_spec in E4 as (_ & _ & He4 & Hd4 & Hu4).
  assert (S01 : same_tables w w1) by eauto using same_tables_trans.
  assert (S02 : same_tables w w2) by eauto using same_tables_trans.
  assert (S03 : same_tables w w3) by eauto using same_tables_trans.
  assert (S04 : same_tables w w4) by eauto using same_tables_trans.
  rewrite (same_tables_table_of w w1 d "B" S01).
  rewrite (same_tables_table_of w w2 d "AB" S02).
  rewrite (same_tables_table_of w w3 d "O" S03).
  change (table_of w0 d "A") with (table_of w d "A").
  unfold w0 in He1, Hd1, Hu1. simpl in He1, Hd1, Hu1.
  eexists. split; [|split; [|split; [|split]]].
  - unfold nth_period, period_record, draw_at.
    change (4 * 0)%nat with 0%nat. change (Z.of_nat 0) with 0.
    rewrite Z.add_0_r, !Nat.add_0_r.
    replace (drawn w + 1)%nat with (S (drawn w)) by lia.
    replace (drawn w + 2)%nat with (S (S (drawn w))) by lia.
    replace (drawn w + 3)%nat with (S (S (S (drawn w)))) by lia.
    reflexivity.
  - destruct S04 as [Ha Hb]. split; [exact Ha|exact Hb].
  - simpl. congruence.
  - simpl. rewrite Hd4, Hd3, Hd2, Hd1. simpl. lia.
  - simpl. congruence.
Qed.

Lemma nth_period_shift (w w1 : World) (d : gmap string loc) (i : Z) (k : nat) :
  same_tables w w1 -> entropy w1 = entropy w ->
  drawn w1 = (drawn w + 4)%nat ->
  nth_period w1 d (i + 1) k = nth_period w d i (S k).
Proof.
  intros Hs He Hd. unfold nth_period, draw_at.
  rewrite !(same_tables_table_of w w1) by done. rewrite He, Hd.
  replace (drawn w + 4 + 4 * k)%nat with (drawn w + 4 * S k)%nat by lia.
  replace (i + 1 + Z.of_nat k) with (i + Z.of_nat (S k)) by lia.
  reflexivity.
Qed.

Lemma progress_events_S (n i : Z) (remaining : nat) :
  progress_events n i (S remaining)
  = Progress (true_div (i + 1) n) :: progress_events n (i + 1) remaining.
Proof.
  unfold progress_events. simpl. f_equal.
  - now rewrite Z.add_0_r.
  - rewrite <- seq_shift, map_map. apply map_ext. intros k.
    do 2 f_equal. lia.
Qed.

Lemma simulation_loop_spec (d : gmap string loc) (n : Z) (remaining : nat) :
  forall (i : Z) (acc : list SimRow) (w : World),
  exists w',
    simulation_loop d n remaining i acc w
    = (acc ++ map (nth_period w d i) (seq 0 remaining), w') /\
    same_tables w w' /\ entropy w' = entropy w /\
    drawn w' = (drawn w + 4 * remaining)%nat /\
    ui w' = ui w ++ progress_events n i remaining.
Proof.
  induction remaining as [|remaining IH]; intros i acc w.
  - exists w. simpl. rewrite !app_nil_r, Nat.add_0_r.
    repeat split; auto.
  - destruct (simulate_period_spec d i w) as (w1 & E1 & S1 & He1 & Hd1 & Hu1).
    set (w2 := snd (emit (Progress (true_div (i + 1) n)) w1)).
    destruct (IH (i + 1) (acc ++ [nth_period w d i 0]) w2)
      as (w' & E & S & He & Hd & Hu).
    exists w'. split; [|split; [|split; [|split]]].
    + simpl. unfold mbind, M_bind. rewrite E1. unfold emit at 1.
      change (simulation_loop d n remaining (i + 1)
                (acc ++ [nth_period w d i 0]) w2
              = (acc ++ nth_period w d i 0
                     :: map (nth_period w d i) (seq 1 remaining), w')).
      rewrite E.
      rewrite <- app_assoc. simpl. do 3 f_equal.
      rewrite <- seq_shift, map_map. apply map_ext. intros k.
      now apply (nth_period_shift w w2).
    + apply (same_tables_trans w w1); [exact S1|].
      apply (same_tables_trans w1 w2); [|exact S].
      split; [intros l rows H; exact H|reflexivity].
    + rewrite He. exact He1.
    + rewrite Hd. unfold w2. simpl. lia.
    + rewrite Hu. unfold w2. simpl.
      rewrite Hu1, progress_events_S, <- app_assoc. reflexivity.
Qed.

Lemma run_monte_carlo_simulation_spec (d : gmap string loc) (n : Z) (w : World) :
  exists w',
    run_monte_carlo_simulation d n w
    = (map (nth_period w d 0) (seq 0 (Z.to_nat n)), w') /\
    same_tables w w' /\ entropy w' = entropy w /\
    drawn w' = (drawn w + 4 * Z.to_nat n)%nat /\
    ui w' = ui w ++ [Progress 0] ++ progress_events n 0 (Z.to_nat n)
                 ++ [ProgressEmpty].
Proof.
  unfold run_monte_carlo_simulation, mbind, M_bind, mret, M_ret, emit.
  cbn beta iota zeta.
  set (w0 := {| heap := heap w; entropy := entropy w; drawn := drawn w;
                ui := ui w ++ [Progress 0] |}).
  destruct (simulation_loop_spec d n (Z.to_nat n) 0 [] w0)
    as (w1 & E & [S S'] & He & Hd & Hu).
  rewrite E. simpl in *. eexists. split; [reflexivity|].
  split; [split; [exact S|exact S']|]. simpl.
  split; [exact He|]. split; [exact Hd|].
  rewrite Hu, <- !app_assoc. reflexivity.
Qed.

(** ** The extremal periods *)

Lemma map_lookup {A B : Type} (f : A -> B) (l : list A) (k : nat) :
  map f l !! k = f <$> (l !! k).
Proof.
  revert k. induction l as [|x l IH]; intros [|k]; simpl; auto.
Qed.

Lemma idxmax_from_spec (xs : list Z) :
  forall (pre : list Z) (best_i : nat) (best : Z),
    pre !! best_i = Some best ->
    (forall k x, pre !! k = Some x -> x <= best /\ (x = best -> (best_i <= k)%nat)) ->
    exists m,
      (pre ++ xs) !! idxmax_from xs (length pre) best_i best = Some m /\
      forall k x, (pre ++ xs) !! k = Some x ->
        x <= m /\ (x = m -> (idxmax_from xs (length pre) best_i best <= k)%nat).
Proof.
  induction xs as [|x xs IH]; intros pre best_i best Hbest Hpre; simpl.
  - rewrite app_nil_r. eauto.
  - pose proof (lookup_lt_Some _ _ _ Hbest) as Hlt.
    replace (S (length pre)) with (length (pre ++ [x]))
      by (rewrite length_app; simpl; lia).
    rewrite (cons_middle x pre xs), app_assoc.
    destruct (Z.ltb_spec best x) as [Hbx|Hbx]; apply IH.
    + rewrite lookup_app_r by lia. now rewrite Nat.sub_diag.
    + intros k y Hy. apply lookup_app_Some in Hy as [Hy|[Hk Hy]].
      * destruct (Hpre k y Hy) as [Hle _]. split; [lia|]. intros ->. lia.
      * apply list_lookup_singleton_Some in Hy as [_ ->]. split; [lia|].
        intros _. exact Hk.
    + now rewrite lookup_app_l.
    + intros k y Hy. apply lookup_app_Some in Hy as [Hy|[Hk Hy]].
      * now apply Hpre.
      * apply list_lookup_singleton_Some in Hy as [_ ->]. split; [lia|].
        intros _. lia.
Qed.

Lemma idxmin_from_opp (xs : list Z) (i best_i : nat) (best : Z) :
  idxmin_from xs i best_i best = idxmax_from (map Z.opp xs) i best_i (- best).
Proof.
  revert i best_i best. induction xs as [|x xs IH]; intros i best_i best;
    simpl; [done|].
  destruct (Z.ltb_spec x best), (Z.ltb_spec (- best) (- x)); try lia;
    apply IH.
Qed.

Lemma idxmax_spec (xs : list Z) (i : nat) :
  idxmax xs = Some i ->
  exists m, xs !! i = Some m /\
    forall k x, xs !! k = Some x -> x <= m /\ (x = m -> (i <= k)%nat).
Proof.
  destruct xs as [|x0 xs]; simpl; [done|]. intros [= <-].
  apply (idxmax_from_spec xs [x0] 0%nat x0); [done|].
  intros [|k] x; simpl; [|done]. intros [= <-]. split; [lia|]. intros _. lia.
Qed.

Lemma idxmin_spec (xs : list Z) (i : nat) :
  idxmin xs = Some i ->
  exists m, xs !! i = Some m /\
    forall k x, xs !! k = Some x -> m <= x /\ (x = m -> (i <= k)%nat).
Proof.
  destruct xs as [|x0 xs]; simpl; [done|]. intros [= <-].
  rewrite idxmin_from_opp.
  destruct (idxmax_spec (map Z.opp (x0 :: xs))
              (idxmax_from (map Z.opp xs) 1 0 (- x0)) eq_refl)
    as (m & Hm & Hall).
  rewrite map_lookup in Hm.
  destruct ((x0 :: xs) !! idxmax_from (map Z.opp xs) 1 0 (- x0))
    as [m'|] eqn:Em; [|discriminate].
  injection Hm as <-. exists m'. split; [done|].
  intros k x Hx. destruct (Hall k (- x)) as [Hle Hfirst].
  - now rewrite map_lookup, Hx.
  - split; [lia|]. intros ->. now apply Hfirst.
Qed.

(** C8.  On a result table that is not empty, [extremes] answers two
    periods of the table: the first has the greatest total and stands
    before every other period with that total; the second has the least
    total and stands before every other period with that total.  When the
    periods are numbered 1, 2, ... in table order, as the engine numbers
    them, the chosen period has the least 'Periode' among those that tie
    with it. *)
Theorem extremes_first_max_min (sim_df : list SimRow) :
  sim_df <> [] ->
  exists (i j : nat) (max_period min_period : SimRow),
    extremes sim_df = Some (max_period, min_period) /\
    sim_df !! i = Some max_period /\ sim_df !! j = Some min_period /\
    (forall k r, sim_df !! k = Some r ->
       Total_Simulasi r <= Total_Simulasi max_period /\
       (Total_Simulasi r = Total_Simulasi max_period -> (i <= k)%nat)) /\
    (forall k r, sim_df !! k = Some r ->
       Total_Simulasi min_period <= Total_Simulasi r /\
       (Total_Simulasi r = Total_Simulasi min_period -> (j <= k)%nat)) /\
    ((forall k r, sim_df !! k = Some r -> Periode r = Z.of_nat k + 1) ->
     forall k r, sim_df !! k = Some r ->
       (Total_Simulasi r = Total_Simulasi max_period ->
        Periode max_period <= Periode r) /\
       (Total_Simulasi r = Total_Simulasi min_period ->
        Periode min_period <= Periode r)).
Proof.
  intros Hne.
  assert (Hext : extremes sim_df
                 = match idxmax (map Total_Simulasi sim_df),
                         idxmin (map Total_Simulasi sim_df) with
                   | Some i, Some j =>
                       match sim_df !! i, sim_df !! j with
                       | Some a, Some b => Some (a, b)
                       | _, _ => None
                       end
                   | _, _ => None
                   end)
    by (destruct sim_df; [done|reflexivity]).
  assert (Hmax : is_Some (idxmax (map Total_Simulasi sim_df)))
    by (destruct sim_df; [done|simpl; eauto]).
  assert (Hmin : is_Some (idxmin (map Total_Simulasi sim_df)))
    by (destruct sim_df; [done|simpl; eauto]).
  destruct Hmax as [i Hi], Hmin as [j Hj]. rewrite Hext, Hi, Hj. clear Hext.
  apply idxmax_spec in Hi as (m & Hm & Hmax).
  apply idxmin_spec in Hj as (n & Hn & Hmin).
  rewrite map_lookup in Hm, Hn.
  destruct (sim_df !! i) as [mx|] eqn:Emx; [|discriminate].
  destruct (sim_df !! j) as [mn|] eqn:Emn; [|discriminate].
  injection Hm as <-. injection Hn as <-.
  assert (HM : forall k r, sim_df !! k = Some r ->
             Total_Simulasi r <= Total_Simulasi mx /\
             (Total_Simulasi r = Total_Simulasi mx -> (i <= k)%nat)).
  { intros k r Hr. apply Hmax. now rewrite map_lookup, Hr. }
  assert (HN : forall k r, sim_df !! k = Some r ->
             Total_Simulasi mn <= Total_Simulasi r /\
             (Total_Simulasi r = Total_Simulasi mn -> (j <= k)%nat)).
  { intros k r Hr. apply Hmin. now rewrite map_lookup, Hr. }
  exists i, j, mx, mn.
  split; [reflexivity|]. split; [exact Emx|]. split; [exact Emn|].
  split; [exact HM|]. split; [exact HN|].
  intros Hnum k r Hr. rewrite (Hnum k r Hr). split; intros Ht.
  - rewrite (Hnum i mx Emx). destruct (HM k r Hr) as [_ Hik].
    specialize (Hik Ht). lia.
  - rewrite (Hnum j mn Emn). destruct (HN k r Hr) as [_ Hjk].
    specialize (Hjk Ht). lia.
Qed.

Lemma extremes_first_max_min_witness :
  sample_results <> [] /\ is_Some (extremes sample_results).
Proof.
  assert (Hne : sample_results <> []) by (vm_compute; discriminate).
  split; [exact Hne|].
  destruct (extremes_first_max_min sample_results Hne)
    as (i & j & mx & mn & E & _).
  rewrite E. eauto.
Defined.

(** In [sample_results] the totals 145 and 117 both occur twice: the
    periods reported are the second and the first. *)
Example extremes_sample_results :
  map Total_Simulasi sample_results = [117; 145; 117; 145] /\
  (Periode <$> (fst <$> extremes sample_results)) = Some 2 /\
  (Periode <$> (snd <$> extremes sample_results)) = Some 1.
Proof. vm_compute. repeat split. Qed.

(** ** Claims on the engine *)

Lemma draw_at_range (w : World) (k : nat) : 0 <= draw_at w k <= 99.
Proof.
  unfold draw_at. pose proof (Z.mod_pos_bound (entropy w k) (99 - 0 + 1)).
  lia.
Qed.

(** The records of a run, one by one. *)
Lemma run_records (d : gmap string loc) (n : Z) (w : World) (k : nat)
    (r : SimRow) :
  fst (run_monte_carlo_simulation d n w) !! k = Some r ->
  (k < Z.to_nat n)%nat /\ r = nth_period w d 0 k.
Proof.
  destruct (run_monte_carlo_simulation_spec d n w) as (w' & E & _).
  rewrite E. simpl. rewrite map_lookup. intros H.
  destruct (seq 0 (Z.to_nat n) !! k) as [k'|] eqn:Ek; [|discriminate].
  apply lookup_seq in Ek as [-> Hk]. injection H as <-. auto.
Qed.

Lemma run_length (d : gmap string loc) (n : Z) (w : World) :
  length (fst (run_monte_carlo_simulation d n w)) = Z.to_nat n.
Proof.
  destruct (run_monte_carlo_simulation_spec d n w) as (w' & E & _).
  rewrite E. simpl. now rewrite length_map, length_seq.
Qed.

(** C1 (amended).  For a period count that is not positive, the engine
    itself does not fail: it makes no draw, touches no table and returns
    the empty result table, after showing and clearing its progress bar.
    The rejection is made by the handler of the button: when the text of
    the input reads as such a count, it reports the error, does not call
    the engine, makes no draw and produces no result table. *)
Theorem nonpositive_period_count (distribusi_dict : gmap string loc)
    (num_simulations : Z) (w : World) :
  num_simulations <= 0 ->
  run_monte_carlo_simulation distribusi_dict num_simulations w
  = ([], {| heap := heap w; entropy := entropy w; drawn := drawn w;
            ui := ui w ++ [Progress 0; ProgressEmpty] |}) /\
  (forall num_simulations_str,
     int num_simulations_str = Some num_simulations ->
     on_run_button distribusi_dict num_simulations_str w
     = (None, {| heap := heap w; entropy := entropy w; drawn := drawn w;
                 ui := ui w ++ [ErrorNotPositive; InfoEnterValid] |})).
Proof.
  intros Hn. split.
  - unfold run_monte_carlo_simulation.
    replace (Z.to_nat num_simulations) with 0%nat by lia.
    unfold mbind, M_bind, mret, M_ret, emit. simpl.
    now rewrite <- app_assoc.
  - intros s Hs. unfold on_run_button. rewrite Hs.
    apply Z.leb_le in Hn. rewrite Hn.
    unfold mbind, M_bind, mret, M_ret, emit. simpl.
    now rewrite <- app_assoc.
Qed.

Lemma nonpositive_period_count_witness :
  run_monte_carlo_simulation dict_only_A (-3) world_sample
  = ([], {| heap := heap world_sample; entropy := entropy world_sample;
            drawn := 0; ui := [Progress 0; ProgressEmpty] |}) /\
  on_run_button dict_only_A (lit "-3") world_sample
  = (None, {| heap := heap world_sample; entropy := entropy world_sample;
              drawn := 0; ui := [ErrorNotPositive; InfoEnterValid] |}).
Proof.
  assert (H : -3 <= 0) by lia.
  destruct (nonpositive_period_count dict_only_A (-3) world_sample H)
    as [Hrun Hbutton].
  split; [exact Hrun|]. apply Hbutton. reflexivity.
Defined.

(** C1 (the claim as stated fails).  Called with 0 periods, the engine
    returns: its result is the empty table, the page has received the
    progress bar and its removal, and no error. *)
Lemma run_zero_periods_returns :
  fst (run_monte_carlo_simulation dict_only_A 0 world_sample) = [] /\
  ui (snd (run_monte_carlo_simulation dict_only_A 0 world_sample))
  = [Progress 0; ProgressEmpty] /\
  ~ ErrorNotPositive ∈ ui (snd (run_monte_carlo_simulation dict_only_A 0
                                  world_sample)).
Proof.
  split; [reflexivity|]. split; [reflexivity|].
  simpl. intros H.
  apply elem_of_cons in H as [H|H]; [discriminate|].
  apply elem_of_cons in H as [H|H]; [discriminate|].
  now apply elem_of_nil in H.
Qed.



Lemma share_zero_total (sim : Z) : share sim 0 = 0%Q.
Proof. reflexivity. Qed.

Lemma share_nonzero_total (sim total_sim : Z) :
  total_sim <> 0 -> share sim total_sim = (true_div sim total_sim * 100)%Q.
Proof. unfold share. intros H. apply Z.eqb_neq in H. now rewrite H. Qed.

Lemma shares_sum (a b c d : Z) :
  a + b + c + d <> 0 ->
  (share a (a + b + c + d) + share b (a + b + c + d)
   + share c (a + b + c + d) + share d (a + b + c + d) == 100)%Q.
Proof.
  intros Hne. rewrite !share_nonzero_total by exact Hne. unfold true_div.
  assert (Hq : ~ (inject_Z (a + b + c + d) == 0)%Q).
  { intros H. apply Hne. unfold Qeq in H. simpl in H. lia. }
  rewrite !inject_Z_plus in *. field. exact Hq.
Qed.





(** C10.  The sampler and the engine do not modify the tables.  The
    sampler leaves the whole world as it was.  After a run, whatever the
    period count, every DataFrame object that existed before has the same
    rows, every reference reads the same rows, and so does every category
    of the dict; the run only adds new, empty DataFrame objects (the
    default values of [dict.get]). *)
Theorem tables_not_modified (distribusi_dict : gmap string loc)
    (num_simulations : Z) (w : World) :
  (forall df random_number,
     snd (get_simulation_value df random_number w) = w) /\
  let w' := snd (run_monte_carlo_simulation distribusi_dict num_simulations w) in
  (forall l rows, heap w !! l = Some rows -> heap w' !! l = Some rows) /\
  (forall l, rows_at w' l = rows_at w l) /\
  (forall key, table_of w' distribusi_dict key = table_of w distribusi_dict key).
Proof.
  split; [reflexivity|].
  destruct (run_monte_carlo_simulation_spec distribusi_dict num_simulations w)
    as (w' & E & S & _).
  rewrite E. simpl. destruct S as [S1 S2].
  split; [exact S1|]. split; [exact S2|].
  intros key. apply same_tables_table_of. split; [exact S1|exact S2].
Qed.

(** The run of [sample_results] has left [table_three] in place and has
    added empty DataFrames only. *)
Example heap_after_sample_run :
  let w' := snd (run_monte_carlo_simulation dict_only_A 4 world_sample) in
  heap w' !! 3%positive = Some table_three /\
  heap w' !! 1%positive = Some table_two /\
  size (heap w') = 19%nat /\ drawn w' = 16%nat.
Proof. vm_compute. repeat split. Qed.

(* ===================================================================== *)
(** * Further properties of the code *)
(* ===================================================================== *)

(** ** [clean_interval_string] and [parse_interval] *)

Lemma replace_elem (old : N) (new s : pystr) (c : N) :
  c ∈ replace old new s <->
  (c ∈ s /\ c <> old) \/ (old ∈ s /\ c ∈ new).
Proof.
  unfold replace. rewrite list_elem_of_In, in_flat_map. split.
  - intros (x & Hx & Hc). apply list_elem_of_In in Hx.
    destruct (N.eqb_spec x old) as [->|Hne].
    + right. split; [done|]. now apply list_elem_of_In.
    + left. destruct Hc as [<-|[]]. done.
  - intros [[Hc Hne]|[Ho Hc]].
    + exists c. split; [now apply list_elem_of_In|].
      apply N.eqb_neq in Hne. rewrite Hne. now left.
    + exists old. split; [now apply list_elem_of_In|].
      rewrite N.eqb_refl. now apply list_elem_of_In.
Qed.

Lemma replace_absent (old : N) (new s : pystr) :
  old ∉ s -> replace old new s = s.
Proof.
  induction s as [|c s IH]; intros H; [done|].
  apply not_elem_of_cons in H as [Hc Hs]. unfold replace in *. simpl.
  destruct (N.eqb_spec c old) as [->|_]; [done|].
  simpl. now rewrite IH.
Qed.

Lemma clean_interval_string_absent (s : pystr) :
  (forall c, c ∈ cleaned_away -> c ∉ s) -> clean_interval_string s = s.
Proof.
  intros H. unfold clean_interval_string.
  rewrite (replace_absent A_CIRCUMFLEX), (replace_absent EN_DASH),
    (replace_absent EM_DASH), (replace_absent SPACE),
    (replace_absent COMMA); try done;
    apply H; unfold cleaned_away; repeat constructor.
Qed.

Lemma clean_interval_string_removes (s : pystr) (c : N) :
  c ∈ cleaned_away -> c ∉ clean_interval_string s.
Proof.
  intros Hc Hin. unfold clean_interval_string in Hin.
  rewrite !replace_elem in Hin.
  rewrite !list_elem_of_singleton in Hin.
  assert (Hcases : c = A_CIRCUMFLEX \/ c = EN_DASH \/ c = EM_DASH
                   \/ c = SPACE \/ c = COMMA).
  { unfold cleaned_away in Hc.
    repeat (apply elem_of_cons in Hc as [Hc|Hc]; [tauto|]).
    now apply elem_of_nil in Hc. }
  assert (Hnil : forall x : N, x ∈ @nil N <-> False)
    by (intros x; split; [apply not_elem_of_nil|tauto]).
  rewrite !Hnil in Hin.
  unfold A_CIRCUMFLEX, EN_DASH, EM_DASH, SPACE, COMMA, HYPHEN in *.
  destruct Hcases as [-> | [-> | [-> | [-> | ->]]]]; intuition congruence.
Qed.

(** X1.  [clean_interval_string] gives a normal form: none of the five
    characters it handles (U+00E2, en dash, em dash, blank, comma) is left
    in its result, a text without them is returned as it is, and cleaning
    twice is cleaning once. *)
Theorem clean_interval_string_normal_form (s : pystr) :
  (forall c, c ∈ cleaned_away -> c ∉ clean_interval_string s) /\
  ((forall c, c ∈ cleaned_away -> c ∉ s) -> clean_interval_string s = s) /\
  clean_interval_string (clean_interval_string s) = clean_interval_string s.
Proof.
  split; [|split].
  - intros c. apply clean_interval_string_removes.
  - apply clean_interval_string_absent.
  - apply clean_interval_string_absent. intros c.
    apply clean_interval_string_removes.
Qed.

Lemma split_length (sep : N) (s : pystr) :
  length (split sep s) = S (count_occ N.eq_dec s sep).
Proof.
  induction s as [|c s IH]; [done|]. simpl.
  destruct (N.eqb_spec c sep) as [->|Hne].
  - destruct (N.eq_dec sep sep); [|done]. simpl. now rewrite IH.
  - destruct (N.eq_dec c sep); [done|].
    destruct (split sep s); simpl in *; [done|exact IH].
Qed.

(** X2.  [parse_interval] is all or nothing.  It answers [(None, None)]
    or two integers; when it answers two integers the text has exactly one
    hyphen and neither integer is negative: a minus sign is read as a
    separator, so a text such as "-5-10" does not parse. *)
Theorem parse_interval_all_or_nothing (interval : pystr) :
  parse_interval interval = (None, None) \/
  exists a b,
    parse_interval interval = (Some a, Some b) /\
    count_occ N.eq_dec interval HYPHEN = 1%nat /\ 0 <= a /\ 0 <= b.
Proof.
  destruct (parse_interval_cases interval) as [H|(a & b & H & Ha & Hb)];
    [now left|].
  right. exists a, b. split; [exact H|]. split; [|done].
  pose proof (split_length HYPHEN interval) as Hlen.
  unfold parse_interval in H.
  destruct (split HYPHEN interval) as [|fa [|fb [|fc fs]]]; try discriminate.
  simpl in Hlen. lia.
Qed.

(** ** Decimal text of an integer, read back *)

Lemma digits_of_eq (d : Decimal.uint) :
  digits_of d
  = match d with
    | Decimal.Nil => []
    | Decimal.D0 l => 48%N :: digits_of l
    | Decimal.D1 l => 49%N :: digits_of l
    | Decimal.D2 l => 50%N :: digits_of l
    | Decimal.D3 l => 51%N :: digits_of l
    | Decimal.D4 l => 52%N :: digits_of l
    | Decimal.D5 l => 53%N :: digits_of l
    | Decimal.D6 l => 54%N :: digits_of l
    | Decimal.D7 l => 55%N :: digits_of l
    | Decimal.D8 l => 56%N :: digits_of l
    | Decimal.D9 l => 57%N :: digits_of l
    end.
Proof. destruct d; reflexivity. Qed.

Lemma scan_digits_digit (c : N) (s : pystr) (acc : Z) (prev : option N) :
  is_digit c = true ->
  scan_digits (c :: s) acc prev
  = scan_digits s (10 * acc + Z.of_N (c - 48)) (Some c).
Proof. intros H. simpl. now rewrite H. Qed.

Ltac scan_step :=
  lazymatch goal with
  | |- scan_digits (digits_of ?x) _ _ = _ =>
      rewrite (digits_of_eq x); cbv beta iota;
      try (rewrite scan_digits_digit by reflexivity)
  end.

Lemma scan_digits_uint_acc (d : Decimal.uint) :
  forall (acc : positive) (p : N),
    is_digit p = true ->
    scan_digits (digits_of d) (Z.pos acc) (Some p)
    = Some (Z.pos (Pos.of_uint_acc d acc), []).
Proof.
  induction d as [|d IH|d IH|d IH|d IH|d IH|d IH|d IH|d IH|d IH|d IH];
    intros acc p Hp; scan_step.
  - simpl. destruct (N.eqb_spec p UNDERSCORE) as [->|_]; [discriminate|done].
  - replace (10 * Z.pos acc + Z.of_N (48 - 48)) with (Z.pos (10 * acc)) by lia.
    now apply IH.
  - replace (10 * Z.pos acc + Z.of_N (49 - 48))
      with (Z.pos (1 + 10 * acc)) by lia.
    now apply IH.
  - replace (10 * Z.pos acc + Z.of_N (50 - 48))
      with (Z.pos (2 + 10 * acc)) by lia.
    now apply IH.
  - replace (10 * Z.pos acc + Z.of_N (51 - 48))
      with (Z.pos (3 + 10 * acc)) by lia.
    now apply IH.
  - replace (10 * Z.pos acc + Z.of_N (52 - 48))
      with (Z.pos (4 + 10 * acc)) by lia.
    now apply IH.
  - replace (10 * Z.pos acc + Z.of_N (53 - 48))
      with (Z.pos (5 + 10 * acc)) by lia.
    now apply IH.
  - replace (10 * Z.pos acc + Z.of_N (54 - 48))
      with (Z.pos (6 + 10 * acc)) by lia.
    now apply IH.
  - replace (10 * Z.pos acc + Z.of_N (55 - 48))
      with (Z.pos (7 + 10 * acc)) by lia.
    now apply IH.
  - replace (10 * Z.pos acc + Z.of_N (56 - 48))
      with (Z.pos (8 + 10 * acc)) by lia.
    now apply IH.
  - replace (10 * Z.pos acc + Z.of_N (57 - 48))
      with (Z.pos (9 + 10 * acc)) by lia.
    now apply IH.
Qed.

Lemma scan_digits_uint (d : Decimal.uint) :
  forall (prev : option N),
    (prev = None -> d <> Decimal.Nil) ->
    (forall p, prev = Some p -> is_digit p = true) ->
    scan_digits (digits_of d) 0 prev = Some (Z.of_N (Pos.of_uint d), []).
Proof.
  induction d as [|d IH|d IH|d IH|d IH|d IH|d IH|d IH|d IH|d IH|d IH];
    intros prev Hnil Hprev; scan_step;
    try (change (10 * 0 + Z.of_N (49 - 48)) with (Z.pos 1);
         change (10 * 0 + Z.of_N (50 - 48)) with (Z.pos 2);
         change (10 * 0 + Z.of_N (51 - 48)) with (Z.pos 3);
         change (10 * 0 + Z.of_N (52 - 48)) with (Z.pos 4);
         change (10 * 0 + Z.of_N (53 - 48)) with (Z.pos 5);
         change (10 * 0 + Z.of_N (54 - 48)) with (Z.pos 6);
         change (10 * 0 + Z.of_N (55 - 48)) with (Z.pos 7);
         change (10 * 0 + Z.of_N (56 - 48)) with (Z.pos 8);
         change (10 * 0 + Z.of_N (57 - 48)) with (Z.pos 9);
         rewrite scan_digits_uint_acc by reflexivity; reflexivity).
  - destruct prev as [p|]; [|now destruct Hnil].
    simpl. specialize (Hprev p eq_refl).
    destruct (N.eqb_spec p UNDERSCORE) as [->|_]; [discriminate|done].
  - change (10 * 0 + Z.of_N (48 - 48)) with 0. simpl Pos.of_uint.
    apply IH; [discriminate|]. now intros p [= <-].
Qed.

Lemma digits_of_are_digits (d : Decimal.uint) (c : N) :
  c ∈ digits_of d -> is_digit c = true.
Proof.
  induction d as [|d IH|d IH|d IH|d IH|d IH|d IH|d IH|d IH|d IH|d IH];
    rewrite digits_of_eq; intros H;
    try (now apply elem_of_nil in H);
    apply elem_of_cons in H as [->|H]; auto.
Qed.

Lemma transform_ascii (s : pystr) :
  (forall c, c ∈ s -> (c < 127)%N) -> transform s = Some s.
Proof.
  induction s as [|c s IH]; intros H; [done|]. simpl.
  unfold to_ascii. assert (Hc : (c < 127)%N) by (apply H; left).
  apply N.ltb_lt in Hc. rewrite Hc, IH; [done|].
  intros x Hx. apply H. now right.
Qed.

Lemma is_digit_range (c : N) : is_digit c = true -> (48 <= c <= 57)%N.
Proof. unfold is_digit. rewrite andb_true_iff, !N.leb_le. tauto. Qed.

Lemma int_digits_of (d : Decimal.uint) :
  d <> Decimal.Nil -> int (digits_of d) = Some (Z.of_N (Pos.of_uint d)).
Proof.
  intros Hd. unfold int. rewrite transform_ascii.
  2:{ intros c Hc. apply digits_of_are_digits, is_digit_range in Hc. lia. }
  unfold int_ascii.
  assert (Hhead : exists c s, digits_of d = c :: s /\ is_digit c = true).
  { pose proof (digits_of_are_digits d) as Hall.
    destruct (digits_of d) as [|c s] eqn:E.
    - destruct d; try done; rewrite digits_of_eq in E; discriminate.
    - exists c, s. split; [done|]. apply Hall. left. }
  destruct Hhead as (c & s & E & Hc).
  assert (Hskip : skip_spaces (digits_of d) = digits_of d).
  { rewrite E. simpl. apply is_digit_range in Hc.
    unfold ascii_space.
    destruct (N.eqb_spec c 32); [lia|].
    destruct (N.leb_spec 9 c), (N.leb_spec c 13); simpl; try done; lia. }
  rewrite Hskip, E.
  apply is_digit_range in Hc.
  destruct (N.eqb_spec c PLUS) as [->|_]; [unfold PLUS in Hc; lia|].
  destruct (N.eqb_spec c HYPHEN) as [->|_]; [unfold HYPHEN in Hc; lia|].
  rewrite <- E, scan_digits_uint; [|done|discriminate].
  simpl. f_equal. lia.
Qed.

(** Reading the decimal text of an integer gives the integer back. *)
Lemma int_str_of_int (n : Z) : int (str_of_int n) = Some n.
Proof.
  unfold str_of_int. destruct n as [|p|p]; [reflexivity| |].
  - simpl Z.to_int. unfold NilZero.string_of_int, NilZero.string_of_uint.
    pose proof (DecimalPos.Unsigned.to_uint_nonnil p) as Hnil.
    destruct (Pos.to_uint p) eqn:E; try done;
      rewrite <- E; fold (digits_of (Pos.to_uint p));
      rewrite int_digits_of by (rewrite E; discriminate);
      now rewrite DecimalPos.Unsigned.of_to.
  - simpl Z.to_int. unfold NilZero.string_of_int.
    pose proof (DecimalPos.Unsigned.to_uint_nonnil p) as Hnil.
    assert (Hs : NilZero.string_of_uint (Pos.to_uint p)
                 = NilEmpty.string_of_uint (Pos.to_uint p))
      by (unfold NilZero.string_of_uint; destruct (Pos.to_uint p); done).
    rewrite Hs.
    change (lit (String "-" (NilEmpty.string_of_uint (Pos.to_uint p))))
      with (HYPHEN :: digits_of (Pos.to_uint p)).
    unfold int. rewrite transform_ascii.
    2:{ intros c Hc. apply elem_of_cons in Hc as [->|Hc]; [done|].
        apply digits_of_are_digits, is_digit_range in Hc. lia. }
    unfold int_ascii. simpl skip_spaces.
    cbv beta iota zeta delta [HYPHEN PLUS N.eqb Pos.eqb].
    rewrite scan_digits_uint; [|done|discriminate].
    simpl skip_spaces. cbv beta iota.
    now rewrite DecimalPos.Unsigned.of_to.
Qed.

Lemma math_ceil_half (n : Z) : math_ceil (true_div n 2) = (n + 1) / 2.
Proof.
  unfold math_ceil, true_div, Qceiling, Qfloor, Qopp, Qdiv, Qmult, Qinv,
    inject_Z.
  simpl. rewrite Z.mul_1_r.
  Z.to_euclidean_division_equations. lia.
Qed.



Lemma split_no_sep (sep : N) (s : pystr) : sep ∉ s -> split sep s = [s].
Proof.
  induction s as [|c s IH]; intros H; [done|].
  apply not_elem_of_cons in H as [Hc Hs]. simpl.
  destruct (N.eqb_spec c sep) as [->|_]; [done|]. now rewrite IH.
Qed.

Lemma split_app_sep (sep : N) (s1 s2 : pystr) :
  sep ∉ s1 -> split sep (s1 ++ sep :: s2) = s1 :: split sep s2.
Proof.
  induction s1 as [|c s1 IH]; intros H; simpl.
  - now rewrite N.eqb_refl.
  - apply not_elem_of_cons in H as [Hc Hs].
    destruct (N.eqb_spec c sep) as [->|_]; [done|]. now rewrite IH.
Qed.

Lemma str_of_int_digits (n : Z) (c : N) :
  0 <= n -> c ∈ str_of_int n -> is_digit c = true.
Proof.
  intros Hn. unfold str_of_int. destruct n as [|p|p]; [| |lia].
  - intros H. apply list_elem_of_singleton in H. now subst c.
  - simpl Z.to_int. unfold NilZero.string_of_int, NilZero.string_of_uint.
    pose proof (DecimalPos.Unsigned.to_uint_nonnil p) as Hnil.
    destruct (Pos.to_uint p) eqn:E; try done;
      rewrite <- E; apply digits_of_are_digits.
Qed.

Lemma digit_not_cleaned (c : N) :
  is_digit c = true -> c <> HYPHEN /\ c ∉ cleaned_away.
Proof.
  intros H. apply is_digit_range in H. split; [unfold HYPHEN; lia|].
  unfold cleaned_away, A_CIRCUMFLEX, EN_DASH, EM_DASH, SPACE, COMMA.
  intros Hin.
  repeat (apply elem_of_cons in Hin as [->|Hin]; [lia|]).
  now apply elem_of_nil in Hin.
Qed.



(** ** The sampler *)



Lemma first_in_band (bands : list band) (random_number : Z) :
  (exists i b, bands !! i = Some b /\ in_band random_number b = true) ->
  exists i b,
    bands !! i = Some b /\ in_band random_number b = true /\
    none_before bands random_number i.
Proof.
  induction bands as [|b0 bands IH]; intros (i & b & Hb & Hin); [done|].
  destruct (in_band random_number b0) eqn:E0.
  - exists 0%nat, b0. split; [done|]. split; [done|]. intros j b' Hj. lia.
  - destruct i as [|i]; [simpl in Hb; congruence|].
    destruct IH as (i' & b' & Hb' & Hin' & Hnone'); [eauto|].
    exists (S i'), b'. split; [done|]. split; [done|].
    intros [|j] c Hj Hc; simpl in Hc.
    + now injection Hc as <-.
    + apply (Hnone' j); [lia|done].
Qed.

(** X6.  No gap below the last rounded percentage: when the rounded
    cumulative percentage of the last row is [u], every draw of 0..u is in
    the band of some row, and the sampler answers for the first such row
    (its midpoint, 0 when its label does not parse).  With [u >= 99] this
    covers every draw of [random.randint(0, 99)]. *)
Theorem get_simulation_value_covered (w : World) (df : loc)
    (rows : DataFrame) (random_number u : Z) :
  heap w !! df = Some rows ->
  last (uppers rows) = Some u ->
  0 <= random_number <= u ->
  exists i row b,
    rows !! i = Some row /\ display_bands rows !! i = Some b /\
    in_band random_number b = true /\
    none_before (display_bands rows) random_number i /\
    get_simulation_value df random_number w
    = (default 0 (midpoint_of (clean_interval_string (Interval_Kelas row))),
       w).
Proof.
  intros Hdf Hlast Hrn.
  destruct (first_in_band (display_bands rows) random_number)
    as (i & b & Hb & Hin & Hnone).
  { now apply band_walk_covers with (u := u). }
  destruct (rows !! i) as [row|] eqn:Hrow.
  - exists i, row, b. repeat (split; [done|]).
    rewrite get_simulation_value_run, Hdf. simpl.
    rewrite sampler_walk_lookup. fold (display_bands rows).
    now rewrite (lookup_band_first rows _ _ i row b Hrow Hb Hin Hnone).
  - apply lookup_ge_None in Hrow. apply lookup_lt_Some in Hb.
    unfold display_bands in Hb. rewrite band_walk_length in Hb. lia.
Qed.

Lemma get_simulation_value_covered_witness :
  exists i row,
    table_three !! i = Some row /\
    get_simulation_value 3%positive 99 world_sample
    = (default 0 (midpoint_of (clean_interval_string (Interval_Kelas row))),
       world_sample).
Proof.
  assert (Hu : last (uppers table_three) = Some 100) by reflexivity.
  assert (Hrn : 0 <= 99 <= 100) by lia.
  destruct (get_simulation_value_covered world_sample 3%positive table_three
              99 100 eq_refl Hu Hrn) as (i & row & b & Hrow & _ & _ & _ & H).
  exists i, row. split; [exact Hrow|exact H].
Defined.

Lemma midpoints_display (df : DataFrame) :
  map d_Titik_Tengah (display_distribution_table df) = midpoints df.
Proof.
  unfold display_distribution_table, display_bands, midpoints.
  generalize 0. induction df as [|row df IH]; intros lo; [done|].
  simpl. now rewrite IH.
Qed.

Lemma sampler_walk_in_midpoints (rows : DataFrame) (random_number lo : Z) :
  sampler_walk rows random_number lo = 0 \/
  Some (sampler_walk rows random_number lo) ∈ midpoints rows.
Proof.
  revert lo. induction rows as [|row rows IH]; intros lo; simpl; [now left|].
  destruct ((lo <=? random_number)
            && (random_number <=? py_round (Prob_Kumulatif_100 row))).
  - unfold midpoint_of.
    destruct (parse_interval (clean_interval_string (Interval_Kelas row)))
      as [[a|] [b|]]; auto.
    right. left.
  - destruct (IH (py_round (Prob_Kumulatif_100 row) + 1)) as [H|H];
      [now left|]. right. now right.
Qed.

(** ** The engine *)

(** X7.  Every value the engine records for a category is 0 or one of the
    midpoints shown in the 'Titik Tengah' column of the table of that
    category; for a category without table it is 0. *)
Theorem sampled_values_are_displayed_midpoints
    (distribusi_dict : gmap string loc) (num_simulations : Z) (w : World)
    (k : nat) (r : SimRow) :
  fst (run_monte_carlo_simulation distribusi_dict num_simulations w) !! k
  = Some r ->
  let shown key :=
    map d_Titik_Tengah
      (display_distribution_table (table_of w distribusi_dict key)) in
  (Simulasi_A r = 0 \/ Some (Simulasi_A r) ∈ shown "A") /\
  (Simulasi_B r = 0 \/ Some (Simulasi_B r) ∈ shown "B") /\
  (Simulasi_AB r = 0 \/ Some (Simulasi_AB r) ∈ shown "AB") /\
  (Simulasi_O r = 0 \/ Some (Simulasi_O r) ∈ shown "O") /\
  (forall key, distribusi_dict !! key = None -> shown key = []).
Proof.
  intros Hr shown. apply run_records in Hr as [_ ->].
  unfold shown, nth_period, period_record. simpl.
  rewrite !midpoints_display.
  repeat (split; [apply sampler_walk_in_midpoints|]).
  intros key Hkey. unfold table_of. now rewrite Hkey.
Qed.

Lemma sampled_values_are_displayed_midpoints_witness :
  sample_results !! 1%nat = Some sample_period_2 /\
  (Simulasi_A sample_period_2 = 0 \/
   Some (Simulasi_A sample_period_2)
   ∈ map d_Titik_Tengah (display_distribution_table table_three)).
Proof.
  assert (E : fst (run_monte_carlo_simulation dict_only_A 4 world_sample)
              !! 1%nat = Some sample_period_2) by (vm_compute; reflexivity).
  split; [exact E|].
  destruct (sampled_values_are_displayed_midpoints dict_only_A 4 world_sample
              1 sample_period_2 E) as (H & _).
  exact H.
Defined.

(** X8.  A run makes four draws per period and nothing else with the
    generator: after [n] periods the generator has advanced by [4 n]
    draws, and the record of the period [k + 1] holds the draws number
    [4 k], [4 k + 1], [4 k + 2] and [4 k + 3] of the run, in the order A,
    B, AB, O. *)
Theorem run_draws (distribusi_dict : gmap string loc) (num_simulations : Z)
    (w : World) :
  drawn (snd (run_monte_carlo_simulation distribusi_dict num_simulations w))
  = (drawn w + 4 * Z.to_nat num_simulations)%nat /\
  entropy (snd (run_monte_carlo_simulation distribusi_dict num_simulations w))
  = entropy w /\
  forall k r,
    fst (run_monte_carlo_simulation distribusi_dict num_simulations w) !! k
    = Some r ->
    Angka_Acak_A r = draw_at w (drawn w + 4 * k) /\
    Angka_Acak_B r = draw_at w (drawn w + 4 * k + 1) /\
    Angka_Acak_AB r = draw_at w (drawn w + 4 * k + 2) /\
    Angka_Acak_O r = draw_at w (drawn w + 4 * k + 3).
Proof.
  destruct (run_monte_carlo_simulation_spec distribusi_dict num_simulations w)
    as (w' & E & _ & He & Hd & _).
  split; [now rewrite E|]. split; [now rewrite E|].
  intros k r Hr. apply run_records in Hr as [_ ->].
  unfold nth_period, period_record. simpl. repeat split.
Qed.

Lemma progress_events_last (n : Z) (remaining : nat) :
  last (progress_events n 0 (S remaining))
  = Some (Progress (true_div (Z.of_nat (S remaining)) n)).
Proof.
  unfold progress_events. rewrite seq_S, map_app. cbn [map].
  rewrite last_snoc. do 3 f_equal. lia.
Qed.

(** X9.  The progress bar of a run: the page receives the bar at 0, then
    one update per period with the fractions 1/n, 2/n, ..., and at last
    the removal of the bar, and nothing else.  Each fraction is above 0
    and at most 1, and for [n > 0] the last one is n/n = 1. *)
Theorem run_progress_events (distribusi_dict : gmap string loc)
    (num_simulations : Z) (w : World) :
  ui (snd (run_monte_carlo_simulation distribusi_dict num_simulations w))
  = ui w ++ [Progress 0]
         ++ progress_events num_simulations 0 (Z.to_nat num_simulations)
         ++ [ProgressEmpty] /\
  (forall k e,
     progress_events num_simulations 0 (Z.to_nat num_simulations) !! k
     = Some e ->
     e = Progress (true_div (Z.of_nat k + 1) num_simulations) /\
     (0 < true_div (Z.of_nat k + 1) num_simulations <= 1)%Q) /\
  (0 < num_simulations ->
   last (progress_events num_simulations 0 (Z.to_nat num_simulations))
   = Some (Progress (true_div num_simulations num_simulations)) /\
   (true_div num_simulations num_simulations == 1)%Q).
Proof.
  destruct (run_monte_carlo_simulation_spec distribusi_dict num_simulations w)
    as (w' & E & _ & _ & _ & Hu).
  split; [now rewrite E|]. split.
  - intros k e He. unfold progress_events in He.
    rewrite map_lookup in He.
    destruct (seq 0 (Z.to_nat num_simulations) !! k) as [k'|] eqn:Ek;
      [|discriminate].
    apply lookup_seq in Ek as [-> Hk]. injection He as <-.
    split; [reflexivity|].
    assert (Hn : 0 < num_simulations) by lia.
    unfold true_div. destruct num_simulations as [|p|p]; try lia.
    unfold Qdiv, Qmult, Qinv, Qlt, Qle, inject_Z. simpl. lia.
  - intros Hn.
    destruct (Z.to_nat num_simulations) as [|m] eqn:Em; [lia|].
    rewrite progress_events_last.
    replace (Z.of_nat (S m)) with num_simulations by lia.
    split; [reflexivity|].
    unfold true_div. destruct num_simulations as [|p|p]; try lia.
    unfold Qdiv, Qmult, Qinv, Qeq, inject_Z. simpl. lia.
Qed.

(** X10.  More periods only add periods: with the same world, the first
    [m] records of a run of [n >= m] periods are the records of a run of
    [m] periods. *)
Theorem run_prefix (distribusi_dict : gmap string loc) (m n : Z) (w : World) :
  m <= n ->
  take (Z.to_nat m) (fst (run_monte_carlo_simulation distribusi_dict n w))
  = fst (run_monte_carlo_simulation distribusi_dict m w).
Proof.
  intros Hmn.
  destruct (run_monte_carlo_simulation_spec distribusi_dict n w)
    as (wn & En & _).
  destruct (run_monte_carlo_simulation_spec distribusi_dict m w)
    as (wm & Em & _).
  rewrite En, Em. simpl.
  replace (Z.to_nat n) with (Z.to_nat m + (Z.to_nat n - Z.to_nat m))%nat
    by lia.
  rewrite seq_app, map_app, take_app_length'; [done|].
  now rewrite length_map, length_seq.
Qed.

Lemma run_prefix_witness :
  take 2 sample_results
  = fst (run_monte_carlo_simulation dict_only_A 2 world_sample).
Proof.
  assert (H : 2 <= 4) by lia.
  exact (run_prefix dict_only_A 2 4 world_sample H).
Defined.

Lemma share_range (sim total_sim : Z) :
  0 <= sim <= total_sim -> (0 <= share sim total_sim <= 100)%Q.
Proof.
  intros H. unfold share. destruct (Z.eqb_spec total_sim 0) as [->|Hne].
  - split; unfold Qle; simpl; lia.
  - unfold true_div. destruct total_sim as [|p|p]; try lia.
    unfold Qdiv, Qmult, Qinv, Qle, inject_Z. simpl. lia.
Qed.

(** X11.  In every record of a run each sampled value is between 0 and
    the total, and each share is between 0 and 100. *)
Theorem shares_within_bounds (distribusi_dict : gmap string loc)
    (num_simulations : Z) (w : World) (k : nat) (r : SimRow) :
  fst (run_monte_carlo_simulation distribusi_dict num_simulations w) !! k
  = Some r ->
  (0 <= Simulasi_A r <= Total_Simulasi r /\
   0 <= Simulasi_B r <= Total_Simulasi r /\
   0 <= Simulasi_AB r <= Total_Simulasi r /\
   0 <= Simulasi_O r <= Total_Simulasi r) /\
  (0 <= Pmk_A r <= 100)%Q /\ (0 <= Pmk_B r <= 100)%Q /\
  (0 <= Pmk_AB r <= 100)%Q /\ (0 <= Pmk_O r <= 100)%Q.
Proof.
  intros Hr. apply run_records in Hr as [_ ->].
  unfold nth_period, period_record. simpl.
  set (tA := table_of w distribusi_dict "A").
  set (tB := table_of w distribusi_dict "B").
  set (tAB := table_of w distribusi_dict "AB").
  set (tO := table_of w distribusi_dict "O").
  set (a := draw_at w _). set (b := draw_at w _).
  set (ab := draw_at w _). set (o := draw_at w _).
  pose proof (sampler_walk_nonneg tA a 0).
  pose proof (sampler_walk_nonneg tB b 0).
  pose proof (sampler_walk_nonneg tAB ab 0).
  pose proof (sampler_walk_nonneg tO o 0).
  split; [lia|]. repeat split; apply share_range; lia.
Qed.

Lemma shares_within_bounds_witness :
  sample_results !! 1%nat = Some sample_period_2 /\
  (0 <= Pmk_A sample_period_2 <= 100)%Q.
Proof.
  assert (E : fst (run_monte_carlo_simulation dict_only_A 4 world_sample)
              !! 1%nat = Some sample_period_2) by (vm_compute; reflexivity).
  split; [exact E|].
  destruct (shares_within_bounds dict_only_A 4 world_sample 1
              sample_period_2 E) as (_ & H & _).
  exact H.
Defined.

(** ** The handler of the button *)

(** X12.  What the handler rejects.  It returns no result table exactly
    when the text is not an integer or is an integer that is not positive;
    a text that is not an integer is answered by the "not an integer"
    error; and whenever it returns no table it has made no draw, has left
    every DataFrame as it was and has shown no progress bar. *)
Theorem on_run_button_rejects (distribusi_data : gmap string loc)
    (num_simulations_str : pystr) (w : World) :
  (fst (on_run_button distribusi_data num_simulations_str w) = None <->
   int num_simulations_str = None \/
   exists n, int num_simulations_str = Some n /\ n <= 0) /\
  (int num_simulations_str = None ->
   on_run_button distribusi_data num_simulations_str w
   = (None, {| heap := heap w; entropy := entropy w; drawn := drawn w;
               ui := ui w ++ [ErrorNotInteger; InfoEnterValid] |})) /\
  (fst (on_run_button distribusi_data num_simulations_str w) = None ->
   let w' := snd (on_run_button distribusi_data num_simulations_str w) in
   drawn w' = drawn w /\ heap w' = heap w /\
   exists e, ui w' = ui w ++ [e; InfoEnterValid] /\
             (e = ErrorNotInteger \/ e = ErrorNotPositive)).
Proof.
  unfold on_run_button.
  destruct (int num_simulations_str) as [n|] eqn:En.
  - destruct (Z.leb_spec n 0) as [Hn|Hn].
    + unfold mbind, M_bind, mret, M_ret, emit. simpl.
      split; [split; eauto|]. split; [discriminate|].
      intros _. repeat split. exists ErrorNotPositive.
      rewrite <- app_assoc. auto.
    + unfold mbind, M_bind, mret, M_ret.
      destruct (emit (Spinner n) w) as [[] w1].
      destruct (run_monte_carlo_simulation distribusi_data n w1) as [df w2].
      simpl. split; [|split; discriminate].
      split; [discriminate|].
      intros [H|(n' & H & Hn')]; [discriminate|]. injection H as <-. lia.
  - unfold mbind, M_bind, mret, M_ret, emit. simpl.
    rewrite <- app_assoc. simpl.
    split; [split; auto|]. split; [reflexivity|].
    intros _. repeat split. exists ErrorNotInteger. auto.
Qed.

(** X13.  What the handler accepts.  When the text reads as a positive
    integer [n] (blanks around it, a plus sign and underscores between
    digits are allowed by [int]), the handler shows the spinner and
    returns the table of the engine for [n] periods, which has [n]
    records. *)
Theorem on_run_button_accepts (distribusi_data : gmap string loc)
    (num_simulations_str : pystr) (n : Z) (w : World) :
  int num_simulations_str = Some n -> 0 < n ->
  fst (on_run_button distribusi_data num_simulations_str w)
  = Some (fst (run_monte_carlo_simulation distribusi_data n w)) /\
  Z.of_nat (length (fst (run_monte_carlo_simulation distribusi_data n w)))
  = n /\
  ui (snd (on_run_button distribusi_data num_simulations_str w))
  = ui w ++ [Spinner n; Progress 0]
         ++ progress_events n 0 (Z.to_nat n) ++ [ProgressEmpty].
Proof.
  intros Hs Hn. unfold on_run_button. rewrite Hs.
  apply Z.leb_gt in Hn as Hleb. rewrite Hleb.
  unfold mbind, M_bind, mret, M_ret, emit.
  set (w1 := {| heap := heap w; entropy := entropy w; drawn := drawn w;
                ui := ui w ++ [Spinner n] |}).
  destruct (run_monte_carlo_simulation_spec distribusi_data n w1)
    as (w2 & E2 & _ & _ & _ & Hu2).
  destruct (run_monte_carlo_simulation_spec distribusi_data n w)
    as (w3 & E3 & _).
  rewrite E2, E3. simpl. split; [reflexivity|].
  split; [rewrite length_map, length_seq; lia|].
  rewrite Hu2. unfold w1. simpl. now rewrite <- app_assoc.
Qed.

Lemma on_run_button_accepts_witness :
  fst (on_run_button dict_only_A (lit " +1_2 ") world_sample)
  = Some (fst (run_monte_carlo_simulation dict_only_A 12 world_sample)) /\
  fst (on_run_button dict_only_A (str_of_int 4) world_sample)
  = Some sample_results.
Proof.
  assert (H12 : 0 < 12) by lia. assert (H4 : 0 < 4) by lia.
  split.
  - apply (on_run_button_accepts dict_only_A (lit " +1_2 ") 12 world_sample
             eq_refl H12).
  - apply (on_run_button_accepts dict_only_A (str_of_int 4) 4 world_sample
             (int_str_of_int 4) H4).
Defined.

(** ** The extremal periods of a run *)

Lemma extremes_spec (sim_df : list SimRow) :
  sim_df <> [] ->
  exists (i j : nat) (mx mn : SimRow),
    extremes sim_df = Some (mx, mn) /\
    sim_df !! i = Some mx /\ sim_df !! j = Some mn /\
    (forall k r, sim_df !! k = Some r ->
       Total_Simulasi r <= Total_Simulasi mx /\
       (Total_Simulasi r = Total_Simulasi mx -> (i <= k)%nat)) /\
    (forall k r, sim_df !! k = Some r ->
       Total_Simulasi mn <= Total_Simulasi r /\
       (Total_Simulasi r = Total_Simulasi mn -> (j <= k)%nat)).
Proof.
  intros Hne.
  assert (Hext : extremes sim_df
                 = match idxmax (map Total_Simulasi sim_df),
                         idxmin (map Total_Simulasi sim_df) with
                   | Some i, Some j =>
                       match sim_df !! i, sim_df !! j with
                       | Some a, Some b => Some (a, b)
                       | _, _ => None
                       end
                   | _, _ => None
                   end)
    by (destruct sim_df; [done|reflexivity]).
  assert (Hmax : is_Some (idxmax (map Total_Simulasi sim_df)))
    by (destruct sim_df; [done|simpl; eauto]).
  assert (Hmin : is_Some (idxmin (map Total_Simulasi sim_df)))
    by (destruct sim_df; [done|simpl; eauto]).
  destruct Hmax as [i Hi], Hmin as [j Hj]. rewrite Hext, Hi, Hj. clear Hext.
  apply idxmax_spec in Hi as (m & Hm & Hmax).
  apply idxmin_spec in Hj as (n & Hn & Hmin).
  rewrite map_lookup in Hm, Hn.
  destruct (sim_df !! i) as [mx|] eqn:Emx; [|discriminate].
  destruct (sim_df !! j) as [mn|] eqn:Emn; [|discriminate].
  injection Hm as <-. injection Hn as <-.
  exists i, j, mx, mn.
  split; [reflexivity|]. split; [exact Emx|]. split; [exact Emn|]. split.
  - intros k r Hr. apply Hmax. now rewrite map_lookup, Hr.
  - intros k r Hr. apply Hmin. now rewrite map_lookup, Hr.
Qed.


(** ** The ranking of the categories *)

Lemma insert_desc_perm (x : string * Q) (l : list (string * Q)) :
  insert_desc x l ≡ₚ x :: l.
Proof.
  induction l as [|y l IH]; simpl; [done|].
  destruct (Qle_bool (snd y) (snd x)); [done|].
  rewrite IH. apply Permutation_swap.
Qed.

Lemma sorted_reverse_perm (l : list (string * Q)) : sorted_reverse l ≡ₚ l.
Proof.
  induction l as [|x l IH]; simpl; [done|].
  now rewrite insert_desc_perm, IH.
Qed.

Lemma insert_desc_sorted (x : string * Q) (l : list (string * Q)) :
  StronglySorted (fun a b => (snd b <= snd a)%Q) l ->
  StronglySorted (fun a b => (snd b <= snd a)%Q) (insert_desc x l).
Proof.
  induction l as [|y l IH]; intros Hs; simpl.
  - constructor; [constructor|constructor].
  - destruct (Qle_bool (snd y) (snd x)) eqn:E.
    + apply Qle_bool_iff in E. constructor; [exact Hs|].
      constructor; [exact E|].
      apply StronglySorted_inv in Hs as [_ Hall].
      eapply Forall_impl; [exact Hall|]. intros z Hz. simpl in Hz.
      now apply Qle_trans with (snd y).
    + assert (Hlt : (snd x < snd y)%Q).
      { apply Qnot_le_lt. intros H. apply Qle_bool_iff in H. congruence. }
      apply StronglySorted_inv in Hs as [Hs Hall].
      constructor; [now apply IH|].
      rewrite (insert_desc_perm x l). constructor; [|exact Hall].
      now apply Qlt_le_weak.
Qed.

Lemma sorted_reverse_sorted (l : list (string * Q)) :
  StronglySorted (fun a b => (snd b <= snd a)%Q) (sorted_reverse l).
Proof.
  induction l as [|x l IH]; simpl; [constructor|].
  now apply insert_desc_sorted.
Qed.

Lemma insert_desc_with_value (q : Q) (x : string * Q) (l : list (string * Q)) :
  with_value q (insert_desc x l) = with_value q (x :: l).
Proof.
  unfold with_value. induction l as [|y l IH]; [done|]. simpl in *.
  destruct (Qle_bool (snd y) (snd x)) eqn:E; [done|]. simpl.
  assert (Hlt : (snd x < snd y)%Q).
  { apply Qnot_le_lt. intros H. apply Qle_bool_iff in H. congruence. }
  destruct (Qeq_bool (snd y) q) eqn:Ey, (Qeq_bool (snd x) q) eqn:Ex;
    rewrite IH; try reflexivity.
  apply Qeq_bool_iff in Ey, Ex. rewrite Ey, Ex in Hlt.
  now apply Qlt_irrefl in Hlt.
Qed.

Lemma sorted_reverse_with_value (q : Q) (l : list (string * Q)) :
  with_value q (sorted_reverse l) = with_value q l.
Proof.
  induction l as [|x l IH]; [done|]. simpl.
  rewrite insert_desc_with_value. unfold with_value in *. simpl.
  now rewrite IH.
Qed.

Lemma strongly_sorted_lookup {A : Type} (R : A -> A -> Prop) (l : list A)
    (i j : nat) (x y : A) :
  StronglySorted R l -> (i < j)%nat ->
  l !! i = Some x -> l !! j = Some y -> R x y.
Proof.
  intros Hs. revert i j x y.
  induction Hs as [|a l Hs IH Hall]; intros i j x y Hij; [done|].
  destruct j as [|j]; [lia|]. destruct i as [|i]; simpl.
  - intros [= <-] Hy. rewrite Forall_forall in Hall. apply Hall.
    apply list_elem_of_lookup. eauto.
  - apply IH. lia.
Qed.

(** X15.  The ranking of [provide_decision_insights].  On a table that is
    not empty the function reports the four categories, each once, in
    descending order of their mean sampled value: the category named
    highest has the greatest mean and the one named lowest the least. *)
Theorem insights_ranking (sim_df : list SimRow) :
  sim_df <> [] ->
  exists ins top bottom,
    provide_decision_insights sim_df = Some ins /\
    sorted_avg_usages ins ≡ₚ avg_usages sim_df /\
    StronglySorted (fun a b => (snd b <= snd a)%Q) (sorted_avg_usages ins) /\
    head (sorted_avg_usages ins) = Some top /\
    last (sorted_avg_usages ins) = Some bottom /\
    highest_category ins = Some (fst top) /\
    lowest_category ins = Some (fst bottom) /\
    forall item, item ∈ avg_usages sim_df ->
      (snd bottom <= snd item <= snd top)%Q.
Proof.
  intros Hne. destruct sim_df as [|r0 rest] eqn:Edf; [done|].
  rewrite <- Edf. clear Hne.
  set (ranked := sorted_reverse (avg_usages sim_df)).
  pose proof (sorted_reverse_perm (avg_usages sim_df)) as Hperm.
  pose proof (sorted_reverse_sorted (avg_usages sim_df)) as Hsorted.
  fold ranked in Hperm, Hsorted.
  assert (Hlen : length ranked = 4%nat)
    by (rewrite (Permutation_length Hperm); reflexivity).
  destruct ranked as [|top ranked'] eqn:Er; [discriminate|].
  destruct (last (top :: ranked')) as [bottom|] eqn:El.
  2:{ apply last_None in El. discriminate. }
  exists {| total_avg_usage := series_mean (map Total_Simulasi sim_df);
            sorted_avg_usages := top :: ranked';
            peak_periods := extremes sim_df |}, top, bottom.
  split.
  { rewrite Edf. unfold provide_decision_insights. rewrite <- Edf.
    fold ranked. now rewrite Er. }
  unfold highest_category, lowest_category. simpl sorted_avg_usages.
  split; [exact Hperm|]. split; [exact Hsorted|].
  split; [reflexivity|]. split; [exact El|].
  split; [reflexivity|]. split; [now rewrite El|].
  intros item Hitem. rewrite <- Hperm in Hitem.
  apply list_elem_of_lookup in Hitem as [k Hk].
  rewrite last_lookup in El. simpl length in El. simpl pred in El.
  split.
  - destruct (decide (k = length ranked')) as [->|Hk'].
    + rewrite El in Hk. injection Hk as <-. apply Qle_refl.
    + apply lookup_lt_Some in Hk as Hlt. simpl in Hlt.
      apply (strongly_sorted_lookup _ (top :: ranked') k (length ranked')
               item bottom Hsorted); auto; lia.
  - destruct k as [|k].
    + simpl in Hk. injection Hk as <-. apply Qle_refl.
    + apply (strongly_sorted_lookup _ (top :: ranked') 0 (S k) top item
               Hsorted); auto; lia.
Qed.

Lemma insights_ranking_witness :
  sample_results <> [] /\
  exists ins,
    provide_decision_insights sample_results = Some ins /\
    sorted_avg_usages ins ≡ₚ avg_usages sample_results.
Proof.
  assert (Hne : sample_results <> []) by (vm_compute; discriminate).
  split; [exact Hne|].
  destruct (insights_ranking sample_results Hne)
    as (ins & top & bottom & E & Hperm & _).
  exists ins. split; [exact E|exact Hperm].
Defined.

Lemma with_value_all (q : Q) (l : list (string * Q)) :
  (forall item, item ∈ l -> (snd item == q)%Q) -> with_value q l = l.
Proof.
  unfold with_value. induction l as [|x l IH]; intros H; [done|]. simpl.
  assert (Hx : Qeq_bool (snd x) q = true)
    by (apply Qeq_bool_iff, H; left).
  rewrite Hx, IH; [done|]. intros item Hitem. apply H. now right.
Qed.

(** X16.  Ties in the ranking.  Categories with equal means keep the
    order A, B, AB, O of the dict: for every value, the categories of the
    ranking that have this mean are those of the dict, in the same order.
    In particular, when the four means are equal the ranking is A, B, AB,
    O. *)
Theorem insights_ties_keep_order (sim_df : list SimRow) :
  sim_df <> [] ->
  exists ins,
    provide_decision_insights sim_df = Some ins /\
    (forall q, with_value q (sorted_avg_usages ins)
               = with_value q (avg_usages sim_df)) /\
    ((forall a b, a ∈ avg_usages sim_df -> b ∈ avg_usages sim_df ->
                  (snd a == snd b)%Q) ->
     sorted_avg_usages ins = avg_usages sim_df /\
     highest_category ins = Some "A" /\ second_category ins = Some "B" /\
     lowest_category ins = Some "O").
Proof.
  intros Hne. destruct sim_df as [|r0 rest] eqn:Edf; [done|].
  rewrite <- Edf. clear Hne.
  exists {| total_avg_usage := series_mean (map Total_Simulasi sim_df);
            sorted_avg_usages := sorted_reverse (avg_usages sim_df);
            peak_periods := extremes sim_df |}.
  split; [now rewrite Edf|]. cbn [sorted_avg_usages].
  split; [intros q; apply sorted_reverse_with_value|].
  intros Hall.
  assert (Heq : sorted_reverse (avg_usages sim_df) = avg_usages sim_df).
  { set (q := series_mean (map Simulasi_A sim_df)).
    rewrite <- (with_value_all q (sorted_reverse (avg_usages sim_df))).
    - rewrite sorted_reverse_with_value. apply with_value_all.
      intros item Hitem. apply (Hall item ("A", q)); [done|]. left.
    - intros item Hitem. rewrite sorted_reverse_perm in Hitem.
      apply (Hall item ("A", q)); [done|]. left. }
  unfold highest_category, second_category, lowest_category.
  cbn [sorted_avg_usages]. rewrite Heq. repeat split.
Qed.

Lemma insights_ties_keep_order_witness :
  exists ins,
    provide_decision_insights sample_results = Some ins /\
    with_value 0 (sorted_avg_usages ins)
    = with_value 0 (avg_usages sample_results).
Proof.
  assert (Hne : sample_results <> []) by (vm_compute; discriminate).
  destruct (insights_ties_keep_order sample_results Hne) as (ins & E & H & _).
  exists ins. split; [exact E|apply H].
Defined.

(** With the means 1, 3, 1, 3 the ranking is B, O, A, AB; in
    [sample_results] only A is used, and B, AB, O follow in this order. *)
Example sorted_reverse_values :
  sorted_reverse [("A", 1); ("B", 3); ("AB", 1); ("O", 3)]%Q
  = [("B", 3); ("O", 3); ("A", 1); ("AB", 1)]%Q /\
  (map fst <$> (sorted_avg_usages <$> provide_decision_insights sample_results))
  = Some ["A"; "B"; "AB"; "O"] /\
  (provide_decision_insights sample_results ≫= highest_category) = Some "A" /\
  (provide_decision_insights sample_results ≫= lowest_category) = Some "O".
Proof. vm_compute. repeat split. Qed.

(** ** The displayed table *)

Lemma midpoints_lookup (df : DataFrame) (i : nat) (row : DistRow) :
  df !! i = Some row ->
  midpoints df !! i
  = Some (midpoint_of (clean_interval_string (Interval_Kelas row))).
Proof.
  intros H. unfold midpoints. now rewrite map_lookup, H.
Qed.

Lemma zip3_length (rows : DataFrame) (mids : list (option Z))
    (bands : list band) :
  length mids = length rows -> length bands = length rows ->
  length (zip3 rows mids bands) = length rows.
Proof.
  revert mids bands.
  induction rows as [|r rows IH]; intros [|m mids] [|b bands]; simpl;
    try done.
  intros Hm Hb. f_equal. apply IH; lia.
Qed.


(** ** The text of a bound *)

Lemma int_one_digit (c : N) :
  is_digit c = true ->
  int [c] = Some (Z.of_N (c - 48)) /\ int [48%N; c] = Some (Z.of_N (c - 48)).
Proof.
  intros H. apply is_digit_range in H.
  assert (Hc : c = 48%N \/ c = 49%N \/ c = 50%N \/ c = 51%N \/ c = 52%N \/
               c = 53%N \/ c = 54%N \/ c = 55%N \/ c = 56%N \/ c = 57%N)
    by lia.
  destruct Hc as [-> | [-> | [-> | [-> | [-> | [-> | [-> | [-> | [-> | ->]]]]]]]]];
    split; reflexivity.
Qed.

(** X18.  The bounds printed in 'Interval Angka Acak',
    [str(bound).zfill(2)], have at least two characters and read back as
    the bound: padding changes the text of 0..9 only, into "00".."09". *)
Theorem zfill_bound_round_trip (n : Z) :
  (2 <= length (zfill 2 (str_of_int n)))%nat /\
  int (zfill 2 (str_of_int n)) = Some n /\
  (n < 0 \/ 10 <= n -> zfill 2 (str_of_int n) = str_of_int n).
Proof.
  pose proof (int_str_of_int n) as Hint.
  destruct (str_of_int n) as [|c [|c' s]] eqn:E.
  - discriminate.
  - assert (Hc : is_digit c = true).
    { destruct (Z_lt_le_dec n 0) as [Hneg|Hpos].
      - exfalso. destruct n as [|p|p]; try lia.
        unfold str_of_int in E. simpl Z.to_int in E.
        unfold NilZero.string_of_int in E.
        pose proof (DecimalPos.Unsigned.to_uint_nonnil p) as Hnil.
        assert (Hs : NilZero.string_of_uint (Pos.to_uint p)
                     = NilEmpty.string_of_uint (Pos.to_uint p))
          by (unfold NilZero.string_of_uint; destruct (Pos.to_uint p); done).
        rewrite Hs in E.
        change (lit (String "-" (NilEmpty.string_of_uint (Pos.to_uint p))))
          with (HYPHEN :: digits_of (Pos.to_uint p)) in E.
        injection E as _ E.
        destruct (Pos.to_uint p); try done; rewrite digits_of_eq in E;
          discriminate.
      - apply (str_of_int_digits n c Hpos). rewrite E. left. }
    destruct (int_one_digit c Hc) as [H1 H2].
    rewrite H1 in Hint. injection Hint as Hn.
    apply is_digit_range in Hc as Hr.
    assert (Hz : zfill 2 [c] = [48%N; c]).
    { unfold zfill. simpl.
      destruct (N.eqb_spec c PLUS) as [->|_]; [unfold PLUS in Hr; lia|].
      destruct (N.eqb_spec c HYPHEN) as [->|_]; [unfold HYPHEN in Hr; lia|].
      reflexivity. }
    rewrite Hz. split; [simpl; lia|]. split; [now rewrite H2, Hn|].
    intros Hrange. exfalso. lia.
  - assert (Hz : zfill 2 (c :: c' :: s) = c :: c' :: s).
    { unfold zfill. simpl. now destruct (N.eqb c PLUS || N.eqb c HYPHEN). }
    rewrite Hz. split; [simpl; lia|]. split; [exact Hint|done].
Qed.

(** ** Categories without table *)

Lemma share_of_zero (total_sim : Z) : (share 0 total_sim == 0)%Q.
Proof.
  unfold share. destruct (total_sim =? 0); [reflexivity|].
  unfold true_div, Qdiv, Qmult, Qeq. simpl. lia.
Qed.

(** X19.  A category without rows (absent from the dict, or bound to an
    empty DataFrame) contributes 0 to every period, whatever the other
    categories and the period count: its sampled value and its share are
    0.  When no category has rows, every record has total 0 and the four
    shares are 0 without any division. *)
Theorem category_without_table (distribusi_dict : gmap string loc)
    (num_simulations : Z) (w : World) (k : nat) (r : SimRow) :
  fst (run_monte_carlo_simulation distribusi_dict num_simulations w) !! k
  = Some r ->
  (table_of w distribusi_dict "A" = [] ->
   Simulasi_A r = 0 /\ (Pmk_A r == 0)%Q) /\
  (table_of w distribusi_dict "B" = [] ->
   Simulasi_B r = 0 /\ (Pmk_B r == 0)%Q) /\
  (table_of w distribusi_dict "AB" = [] ->
   Simulasi_AB r = 0 /\ (Pmk_AB r == 0)%Q) /\
  (table_of w distribusi_dict "O" = [] ->
   Simulasi_O r = 0 /\ (Pmk_O r == 0)%Q) /\
  (table_of w distribusi_dict "A" = [] ->
   table_of w distribusi_dict "B" = [] ->
   table_of w distribusi_dict "AB" = [] ->
   table_of w distribusi_dict "O" = [] ->
   Total_Simulasi r = 0 /\ Pmk_A r = 0%Q /\ Pmk_B r = 0%Q /\
   Pmk_AB r = 0%Q /\ Pmk_O r = 0%Q).
Proof.
  intros Hr. apply run_records in Hr as [_ ->].
  unfold nth_period, period_record. simpl.
  split; [|split; [|split; [|split]]].
  1-4: intros ->; simpl; split; [reflexivity|apply share_of_zero].
  intros -> -> -> ->. simpl. repeat split.
Qed.

Lemma category_without_table_witness :
  sample_results !! 1%nat = Some sample_period_2 /\
  Simulasi_AB sample_period_2 = 0 /\ (Pmk_AB sample_period_2 == 0)%Q.
Proof.
  assert (E : fst (run_monte_carlo_simulation dict_only_A 4 world_sample)
              !! 1%nat = Some sample_period_2) by (vm_compute; reflexivity).
  split; [exact E|].
  destruct (category_without_table dict_only_A 4 world_sample 1
              sample_period_2 E) as (_ & _ & H & _).
  apply H. reflexivity.
Defined.

(** An empty dict: every category is absent. *)
Example run_without_tables :
  map (fun r => (Periode r, Total_Simulasi r, Pmk_A r, Pmk_O r))
      (fst (run_monte_carlo_simulation ∅ 2 world_sample))
  = [(1, 0, 0%Q, 0%Q); (2, 0, 0%Q, 0%Q)].
Proof. vm_compute. reflexivity. Qed.
